(** * Martina-NAT: field extraction from medical PDF text

    Shallow embedding of [renombrador_labcorp.py] and of the date-of-birth
    extractor of [etl_autorizaciones.py], and the properties of the
    extraction engine stated in the specification.

    Python [str] values are modelled by [string]; the model covers text in
    the 7-bit ASCII range (a character above 127 is neither a letter, a
    digit nor white space, and [upper] leaves it alone).  A Python
    exception is modelled by [None]. *)

From Stdlib Require Import Bool Arith Lia List Ascii String Permutation.
Import ListNotations.
Open Scope string_scope.
Open Scope nat_scope.

(** ** Python string primitives *)

Module PyStr.

Definition code (c : ascii) : nat := nat_of_ascii c.

Definition between (lo hi : nat) (c : ascii) : bool :=
  (lo <=? code c) && (code c <=? hi).

Definition is_digit (c : ascii) : bool := between 48 57 c.
Definition is_upper (c : ascii) : bool := between 65 90 c.
Definition is_lower (c : ascii) : bool := between 97 122 c.
Definition is_alpha (c : ascii) : bool := is_upper c || is_lower c.

(** [str.isspace] on one character: TAB, LF, VT, FF, CR, FS, GS, RS, US
    and the space. *)
Definition is_space (c : ascii) : bool :=
  between 9 13 c || between 28 32 c.

(** Word characters of [\w] and [\b]. *)
Definition is_word (c : ascii) : bool :=
  is_alpha c || is_digit c || (code c =? 95).

Definition upper_char (c : ascii) : ascii :=
  if is_lower c then ascii_of_nat (code c - 32) else c.

Definition lower_char (c : ascii) : ascii :=
  if is_upper c then ascii_of_nat (code c + 32) else c.

Fixpoint map_str (f : ascii -> ascii) (s : string) : string :=
  match s with
  | EmptyString => EmptyString
  | String c s' => String (f c) (map_str f s')
  end.

(** [s.upper()] and [s.lower()] *)
Definition upper : string -> string := map_str upper_char.
Definition lower : string -> string := map_str lower_char.

(** [sub in s] *)
Fixpoint contains (sub s : string) : bool :=
  prefix sub s ||
  match s with
  | EmptyString => false
  | String _ s' => contains sub s'
  end.

Fixpoint drop (n : nat) (s : string) : string :=
  match n, s with
  | O, _ => s
  | S n', String _ s' => drop n' s'
  | S _, EmptyString => EmptyString
  end.

Fixpoint take (n : nat) (s : string) : string :=
  match n, s with
  | S n', String c s' => String c (take n' s')
  | _, _ => EmptyString
  end.

(** [s[i:j]] for non-negative indices *)
Definition slice (i j : nat) (s : string) : string := take (j - i) (drop i s).

(** [s.replace(old, new)] for a non-empty [old]: occurrences are replaced
    from left to right and do not overlap.  [skip] counts the characters of
    an occurrence that are still to be passed over. *)
Fixpoint replace_go (old new : string) (skip : nat) (s : string) : string :=
  match s with
  | EmptyString => EmptyString
  | String c s' =>
      match skip with
      | S k => replace_go old new k s'
      | O =>
          if prefix old s
          then new ++ replace_go old new (length old - 1) s'
          else String c (replace_go old new 0 s')
      end
  end.

Definition replace (old new s : string) : string := replace_go old new 0 s.

Fixpoint lstrip (s : string) : string :=
  match s with
  | String c s' => if is_space c then lstrip s' else s
  | EmptyString => EmptyString
  end.

Fixpoint rstrip (s : string) : string :=
  match s with
  | EmptyString => EmptyString
  | String c s' =>
      match rstrip s' with
      | EmptyString => if is_space c then EmptyString else String c EmptyString
      | r => String c r
      end
  end.

(** [s.strip()] *)
Definition strip (s : string) : string := rstrip (lstrip s).

(** [s.split()]: the maximal runs of characters that are not white space.
    [cur] is the word being read, reversed. *)
Fixpoint rev_str (acc s : string) : string :=
  match s with
  | EmptyString => acc
  | String c s' => rev_str (String c acc) s'
  end.

Fixpoint split_go (cur : string) (s : string) : list string :=
  match s with
  | EmptyString =>
      match cur with EmptyString => [] | _ => [rev_str "" cur] end
  | String c s' =>
      if is_space c
      then match cur with
           | EmptyString => split_go "" s'
           | _ => rev_str "" cur :: split_go "" s'
           end
      else split_go (String c cur) s'
  end.

Definition split (s : string) : list string := split_go "" s.

(** [sep.join(ws)] *)
Definition join (sep : string) (ws : list string) : string := concat sep ws.

(** Truth value of a [str] *)
Definition truthy (s : string) : bool :=
  match s with EmptyString => false | _ => true end.

(** [s.split(sep)] for a separator of one character: the fields between
    the separators, the empty ones included.  [cur] is the field being read,
    reversed. *)
Fixpoint split_sep_go (sep : ascii) (cur : string) (s : string) : list string :=
  match s with
  | EmptyString => [rev_str "" cur]
  | String c s' =>
      if Ascii.eqb c sep then rev_str "" cur :: split_sep_go sep "" s'
      else split_sep_go sep (String c cur) s'
  end.

Definition split_sep (sep : ascii) (s : string) : list string :=
  split_sep_go sep "" s.

(** [s.capitalize()] *)
Definition capitalize (s : string) : string :=
  match s with
  | EmptyString => EmptyString
  | String c s' => String (upper_char c) (lower s')
  end.

End PyStr.

(** ** Regular expressions: the part of Python's [re] the patterns use

    A backtracking matcher in continuation-passing style.  Alternatives are
    tried in the order Python tries them (greedy repetition: one more
    iteration first; lazy repetition: stop first), so that the first match
    found is the match [re] reports, groups included. *)

Module Re.
Import PyStr.

Inductive item : Type :=
| ICh (c : ascii)            (* one character *)
| IRange (lo hi : ascii)     (* lo-hi *)
| IDigit                     (* \d *)
| ISpace.                    (* \s *)

Inductive regex : Type :=
| Eps
| Lit (c : ascii)
| Any                                   (* . *)
| Cls (neg : bool) (items : list item)  (* [...] and [^...] *)
| WordB                                 (* \b *)
| Bol                                   (* ^ *)
| Eol                                   (* $ *)
| Seq (r1 r2 : regex)
| Alt (r1 r2 : regex)                   (* r1|r2 *)
| Rep (greedy : bool) (lo : nat) (hi : option nat) (r : regex)
| Grp (i : nat) (r : regex).            (* i-th capturing group *)

Record flags : Type := Flags {
  ignorecase : bool;   (* re.IGNORECASE *)
  dotall : bool;       (* re.DOTALL *)
  multiline : bool     (* re.MULTILINE *)
}.

Definition no_flags : flags := Flags false false false.
Definition IGNORECASE : flags := Flags true false false.
Definition IGNORECASE_DOTALL : flags := Flags true true false.
Definition IGNORECASE_MULTILINE : flags := Flags true false true.

(** A position in the subject: its index, the character before it and the
    text from it on. *)
Record cursor : Type := Cursor {
  pos : nat;
  prev : option ascii;
  rest : string
}.

Definition start_of (s : string) : cursor := Cursor 0 None s.

(** Groups closed so far: number, start index, text. *)
Definition caps : Type := list (nat * (nat * string)).

Definition newline : ascii := "010"%char.

Definition ascii_eqb (a b : ascii) : bool := Ascii.eqb a b.

Definition item_match (it : item) (c : ascii) : bool :=
  match it with
  | ICh a => ascii_eqb a c
  | IRange lo hi => between (code lo) (code hi) c
  | IDigit => is_digit c
  | ISpace => is_space c
  end.

(** Under IGNORECASE a character belongs to a class when one of its two
    cases does. *)
Definition item_match_fl (f : flags) (it : item) (c : ascii) : bool :=
  if ignorecase f
  then item_match it (lower_char c) || item_match it (upper_char c)
  else item_match it c.

Definition cls_match (f : flags) (neg : bool) (items : list item) (c : ascii) : bool :=
  xorb neg (existsb (fun it => item_match_fl f it c) items).

Definition lit_match (f : flags) (a c : ascii) : bool :=
  if ignorecase f then ascii_eqb (lower_char a) (lower_char c) else ascii_eqb a c.

Definition any_match (f : flags) (c : ascii) : bool :=
  dotall f || negb (ascii_eqb c newline).

Definition word_opt (o : option ascii) : bool :=
  match o with Some c => is_word c | None => false end.

Definition next_char (cur : cursor) : option ascii :=
  match rest cur with String c _ => Some c | EmptyString => None end.

Definition at_word_boundary (cur : cursor) : bool :=
  xorb (word_opt (prev cur)) (word_opt (next_char cur)).

Definition at_bol (f : flags) (cur : cursor) : bool :=
  match prev cur with
  | None => true
  | Some c => multiline f && ascii_eqb c newline
  end.

Definition at_eol (f : flags) (cur : cursor) : bool :=
  match rest cur with
  | EmptyString => true
  | String c s' =>
      ascii_eqb c newline &&
      (multiline f || match s' with EmptyString => true | _ => false end)
  end.

(** One character read under the test [ok]. *)
Definition step (ok : ascii -> bool) (cur : cursor) : option cursor :=
  match rest cur with
  | String c s' => if ok c then Some (Cursor (S (pos cur)) (Some c) s') else None
  | EmptyString => None
  end.

Definition within (hi : option nat) (n : nat) : bool :=
  match hi with None => true | Some h => n <? h end.

Definition or_else {A : Type} (x : option A) (y : unit -> option A) : option A :=
  match x with Some v => Some v | None => y tt end.

Definition result : Type := option (cursor * caps).
Definition cont : Type := cursor -> caps -> result.

(** The iterations of a repetition whose body is matched by [body]; [n]
    iterations are done.  An iteration has to read at least one character,
    which bounds their number by the length of the text left: [fuel]. *)
Fixpoint rep_loop (body : cursor -> caps -> cont -> result)
  (greedy : bool) (lo : nat) (hi : option nat) (k : cont)
  (fuel n : nat) (cur : cursor) (cs : caps) {struct fuel} : result :=
  let stop := fun _ : unit => if lo <=? n then k cur cs else None in
  let more := fun _ : unit =>
    match fuel with
    | O => None
    | S fuel' =>
        if within hi n
        then body cur cs
               (fun cur' cs' =>
                  if pos cur <? pos cur'
                  then rep_loop body greedy lo hi k fuel' (S n) cur' cs'
                  else None)
        else None
    end in
  if greedy then or_else (more tt) stop else or_else (stop tt) more.

(** [mt f r cur cs k]: match [r] at [cur] and hand the position reached to
    [k]; when [k] fails, the next alternative of [r] is tried. *)
Fixpoint mt (f : flags) (r : regex) (cur : cursor) (cs : caps) (k : cont)
  {struct r} : result :=
  match r with
  | Eps => k cur cs
  | Lit a =>
      match step (lit_match f a) cur with Some cur' => k cur' cs | None => None end
  | Any =>
      match step (any_match f) cur with Some cur' => k cur' cs | None => None end
  | Cls neg items =>
      match step (cls_match f neg items) cur with
      | Some cur' => k cur' cs
      | None => None
      end
  | WordB => if at_word_boundary cur then k cur cs else None
  | Bol => if at_bol f cur then k cur cs else None
  | Eol => if at_eol f cur then k cur cs else None
  | Seq r1 r2 => mt f r1 cur cs (fun cur' cs' => mt f r2 cur' cs' k)
  | Alt r1 r2 => or_else (mt f r1 cur cs k) (fun _ => mt f r2 cur cs k)
  | Grp i r1 =>
      mt f r1 cur cs
         (fun cur' cs' =>
            k cur' ((i, (pos cur, take (pos cur' - pos cur) (rest cur))) :: cs'))
  | Rep greedy lo hi r1 =>
      rep_loop (mt f r1) greedy lo hi k (length (rest cur)) 0 cur cs
  end.

(** A match object. *)
Record match_obj : Type := Match {
  m_start : nat;          (* m.start() *)
  m_end : nat;            (* m.end() *)
  m_groups : caps;
  m_after : cursor        (* where the next search of finditer begins *)
}.

Fixpoint lookup (i : nat) (cs : caps) : option (nat * string) :=
  match cs with
  | [] => None
  | (j, v) :: cs' => if i =? j then Some v else lookup i cs'
  end.

(** [m.group(i)] for a group that took part in the match (every group of
    the patterns below does). *)
Definition group (m : match_obj) (i : nat) : string :=
  match lookup i (m_groups m) with Some (_, s) => s | None => "" end.

Definition accept : cont := fun cur cs => Some (cur, cs).

(** Leftmost match at or after the position [(p, pv, s)]. *)
Fixpoint search_at (f : flags) (r : regex) (p : nat) (pv : option ascii)
  (s : string) {struct s} : option match_obj :=
  match mt f r (Cursor p pv s) [] accept with
  | Some (cur', cs) => Some (Match p (pos cur') cs cur')
  | None =>
      match s with
      | EmptyString => None
      | String c s' => search_at f r (S p) (Some c) s'
      end
  end.

(** [re.search(r, s, flags)] *)
Definition search (f : flags) (r : regex) (s : string) : option match_obj :=
  search_at f r 0 None s.

(** [re.finditer(r, s, flags)] as the list of its matches, for patterns
    that do not match the empty string (after an empty match the scan moves
    on by one character). *)
Fixpoint finditer_go (fuel : nat) (f : flags) (r : regex) (cur : cursor)
  : list match_obj :=
  match fuel with
  | O => []
  | S fuel' =>
      match search_at f r (pos cur) (prev cur) (rest cur) with
      | None => []
      | Some m =>
          m :: (if m_start m <? m_end m
                then finditer_go fuel' f r (m_after m)
                else match rest (m_after m) with
                     | EmptyString => []
                     | String c s' =>
                         finditer_go fuel' f r
                           (Cursor (S (m_end m)) (Some c) s')
                     end)
      end
  end.

Definition finditer (f : flags) (r : regex) (s : string) : list match_obj :=
  finditer_go (S (length s)) f r (start_of s).

(** Replacement templates: literal text and group references [\i]. *)
Inductive tpl_item : Type :=
| TLit (s : string)
| TGrp (i : nat).

Fixpoint expand (t : list tpl_item) (m : match_obj) : string :=
  match t with
  | [] => ""
  | TLit s :: t' => s ++ expand t' m
  | TGrp i :: t' => group m i ++ expand t' m
  end.

(** [p]: index of the first character of [s] in the subject. *)
Fixpoint sub_go (t : list tpl_item) (ms : list match_obj) (p : nat) (s : string)
  : string :=
  match ms with
  | [] => s
  | m :: ms' =>
      take (m_start m - p) s ++ expand t m
        ++ sub_go t ms' (m_end m) (drop (m_end m - p) s)
  end.

(** [re.sub(r, template, s, flags=f)] *)
Definition sub (f : flags) (r : regex) (t : list tpl_item) (s : string) : string :=
  sub_go t (finditer f r s) 0 s.

(** Pattern combinators *)
Fixpoint lit (s : string) : regex :=
  match s with
  | EmptyString => Eps
  | String c EmptyString => Lit c
  | String c s' => Seq (Lit c) (lit s')
  end.

Fixpoint seq (rs : list regex) : regex :=
  match rs with
  | [] => Eps
  | [r] => r
  | r :: rs' => Seq r (seq rs')
  end.

Definition star (r : regex) : regex := Rep true 0 None r.        (* r* *)
Definition plus (r : regex) : regex := Rep true 1 None r.        (* r+ *)
Definition opt (r : regex) : regex := Rep true 0 (Some 1) r.     (* r? *)
Definition lazy_star (r : regex) : regex := Rep false 0 None r.  (* r*? *)
Definition times (lo hi : nat) (r : regex) : regex := Rep true lo (Some hi) r. (* r{lo,hi} *)
Definition at_least (lo : nat) (r : regex) : regex := Rep true lo None r.      (* r{lo,} *)
Definition set (items : list item) : regex := Cls false items.
Definition digit : regex := set [IDigit].                        (* \d *)
Definition space : regex := set [ISpace].                        (* \s *)

End Re.

(** ** Dates: [datetime] and the part of [dateutil] the examples need *)

Module Dateutil.
Import PyStr.

Record datetime : Type := Datetime { year : nat; month : nat; day : nat }.

Fixpoint int_go (acc : nat) (s : string) : nat :=
  match s with
  | EmptyString => acc
  | String c s' => int_go (10 * acc + (code c - 48)) s'
  end.

(** [int(s)] for a string of decimal digits *)
Definition int (s : string) : nat := int_go 0 s.

Definition digit_char (n : nat) : ascii := ascii_of_nat (48 + n mod 10).

Fixpoint str_go (fuel n : nat) (acc : string) : string :=
  match fuel with
  | O => acc
  | S fuel' =>
      let acc' := String (digit_char n) acc in
      if n <? 10 then acc' else str_go fuel' (n / 10) acc'
  end.

(** [str(n)] *)
Definition str (n : nat) : string := str_go (S n) n "".

(** [f"{n:02d}"] *)
Definition pad2 (n : nat) : string := if n <? 10 then "0" ++ str n else str n.

(** [s.zfill(w)] for a string of digits *)
Fixpoint zeros (n : nat) : string :=
  match n with O => "" | S n' => String "0" (zeros n') end.

Definition zfill (w : nat) (s : string) : string := zeros (w - length s) ++ s.

(** [dt.strftime("%m-%d-%Y")] for a year of four digits *)
Definition strftime_mdY (dt : datetime) : string :=
  pad2 (month dt) ++ "-" ++ pad2 (day dt) ++ "-" ++ str (year dt).

Definition leap (y : nat) : bool :=
  ((y mod 4 =? 0) && negb (y mod 100 =? 0)) || (y mod 400 =? 0).

Definition days_in_month (y m : nat) : nat :=
  match m with
  | 2 => if leap y then 29 else 28
  | 4 | 6 | 9 | 11 => 30
  | _ => 31
  end.

(** [datetime(y, m, d)], which raises [ValueError] on an impossible date *)
Definition make (y m d : nat) : option datetime :=
  if (1 <=? y) && (y <? 10 * 1000) && (1 <=? m) && (m <=? 12)
     && (1 <=? d) && (d <=? days_in_month y m)
  then Some (Datetime y m d) else None.

Fixpoint all_digits (s : string) : bool :=
  match s with
  | EmptyString => true
  | String c s' => is_digit c && all_digits s'
  end.

(** The fields of [s] between the separators [/]; [cur] is the field being
    read, reversed. *)
Fixpoint fields_go (cur : string) (s : string) : list string :=
  match s with
  | EmptyString => [rev_str "" cur]
  | String c s' =>
      if Ascii.eqb c "/" then rev_str "" cur :: fields_go "" s'
      else fields_go (String c cur) s'
  end.

Definition short_number (s : string) : bool :=
  all_digits s && (1 <=? length s) && (length s <=? 2).

(** [dateutil.parser.parse(s, dayfirst=False, fuzzy=True)] on a date written
    as one or two digits, [/], one or two digits, [/], four digits: the
    four-digit number is the year; of the other two, the first is the month
    unless it exceeds 12, in which case it is the day; a first number above
    31 is itself read as the year, with the month and the day after it.
    Other inputs are outside this model, which answers [None] for them; the
    properties stated for every text below are proved for an arbitrary
    parser. *)
Definition parse (s : string) : option datetime :=
  match fields_go "" s with
  | [a; b; y] =>
      if short_number a && short_number b && all_digits y && (length y =? 4)
      then
        if 31 <? int a then make (int a) (int b) (int y)
        else if 12 <? int a then make (int y) (int b) (int a)
        else make (int y) (int a) (int b)
      else None
  | _ => None
  end.

End Dateutil.

(** ** renombrador_labcorp.py *)

Module Renombrador.
Import PyStr Re Dateutil.

Definition tab : ascii := "009"%char.
Definition cr : ascii := "013"%char.
Definition lf : ascii := "010"%char.
Definition dquote : ascii := "034"%char.

Definition chr (c : ascii) : string := String c EmptyString.

(** The set NEGATIVOS; it is only ever scanned for one entry contained in a
    name, so its order does not matter. *)
Definition NEGATIVOS : list string := [
  "DATE OF BIRTH"; "DOB FEMALE"; "DOB MALE"; "PATIENT ID"; "ACCOUNT NO"; "LOS ANGELES";
  "LOS "; "CA "; "GLENDALE"; "DOWNEY"; "PASADENA"; "ROSEMEAD"; "CENTER"; "HOSPITAL";
  "FAMILY HEALTH"; "ENDOCRINOLOGY"; "VISIT"; "OFFICE"; "STREET"; "ST."; "BLVD"; "AVENUE";
  "FAX"; "COVER"; "SHEET"; "RESULT"; "REPORT"; "SUMMARY"; "MRN"; "ACC NO"; "ACCNO";
  "BILLING"; "LAB"; "LIPID"; "PANEL"; "COMPREHENSIVE"; "METABOLIC"; "REQUEST"; "INFORMATION"
].

(** The class of limpiar_nombre: backslash, slash, star, question mark,
    colon, double quote, angle brackets, bar, CR and LF *)
Definition ilegales : regex :=
  set [ICh "\"; ICh "/"; ICh "*"; ICh "?"; ICh ":"; ICh dquote; ICh "<"; ICh ">";
       ICh "|"; ICh cr; ICh lf].

Definition limpiar_nombre (s : string) : string :=
  let s := sub no_flags ilegales [TLit "-"] s in
  let s := strip (sub no_flags (plus space) [TLit " "] s) in
  s.

(** [\d{3,}] *)
Definition tres_digitos : regex := at_least 3 digit.

Definition es_nombre_valido (nombre : string) : bool :=
  let up := upper nombre in
  if length up <? 5 then false
  else if existsb (fun neg => contains neg up) NEGATIVOS then false
  else if negb (contains " " up) then false
  else match search no_flags tres_digitos up with
       | Some _ => false
       | None => true
       end.

(** The dictionary [rep], in insertion order *)
Definition rep : list (string * string) := [
  ("D0B", "DOB");
  ("D0 B", "DOB");
  ("D.O.B", "DOB");
  ("D 0 B", "DOB");
  ("0/", "0/");
  (" O/", " 0/")
].

(** [[ \t]+] *)
Definition blancos : regex := plus (set [ICh " "; ICh tab]).

Definition normalizar_ocr (texto : string) : string :=
  let texto := fold_left (fun t ab => replace (fst ab) (snd ab) t) rep texto in
  let texto := replace (chr cr) (chr lf) texto in
  let texto := sub no_flags blancos [TLit " "] texto in
  texto.

(** [(\d{1,2})[/-](\d{1,2})[/-](\d{2,4})] *)
Definition fecha_rgx : regex :=
  seq [Grp 1 (times 1 2 digit); set [ICh "/"; ICh "-"];
       Grp 2 (times 1 2 digit); set [ICh "/"; ICh "-"];
       Grp 3 (times 2 4 digit)].

Section ConParser.

(** [dtparser.parse(s, dayfirst=False, fuzzy=True)]; [None] when it raises *)
Variable dtparse : string -> option datetime.

Definition normalizar_fecha (fecha_str : string) : option string :=
  let fecha_str :=
    replace "-" "/" (replace "." "/" (replace "\" "/" (strip fecha_str))) in
  let intento :=
    match dtparse fecha_str with
    | Some dt =>
        if (year dt <? 1900) || (2100 <? year dt)
        then None                               (* raise ValueError *)
        else Some (strftime_mdY dt)
    | None => None
    end in
  match intento with
  | Some r => Some r
  | None =>                                     (* except Exception *)
      match search no_flags fecha_rgx fecha_str with
      | None => None                            (* raise *)
      | Some m =>
          let mm := group m 1 in
          let dd := group m 2 in
          let yy := group m 3 in
          let yy := if length yy =? 4 then yy else "20" ++ zfill 2 yy in
          Some (pad2 (int mm) ++ "-" ++ pad2 (int dd) ++ "-" ++ yy)
      end
  end.


(** The name class [[A-Z][A-Za-z' \-]+] of the patterns *)
Definition letras : list item :=
  [IRange "A" "Z"; IRange "a" "z"; ICh "'"; ICh " "; ICh "-"].

Definition nombre_rgx : regex := Seq (set [IRange "A" "Z"]) (plus (set letras)).

(** [[:\s]*] *)
Definition dos_puntos : regex := star (set [ICh ":"; ISpace]).

(** [[0-9]{1,2}[/-][0-9]{1,2}[/-][0-9]{2,4}] *)
Definition fecha_num : regex :=
  seq [times 1 2 (set [IRange "0" "9"]); set [ICh "/"; ICh "-"];
       times 1 2 (set [IRange "0" "9"]); set [ICh "/"; ICh "-"];
       times 2 4 (set [IRange "0" "9"])].

(** [[A-Za-z]{3,9}\s+\d{1,2},?\s+\d{2,4}] *)
Definition fecha_mes : regex :=
  seq [times 3 9 (set [IRange "A" "Z"; IRange "a" "z"]); plus space;
       times 1 2 digit; opt (Lit ","); plus space; times 2 4 digit].

Definition DOB_REGEXES : list regex := [
  (* \bDOB[:\s]*([0-9]{1,2}[/-][0-9]{1,2}[/-][0-9]{2,4}) *)
  seq [WordB; lit "DOB"; dos_puntos; Grp 1 fecha_num];
  (* \bDate of Birth[:\s]*([0-9]{1,2}[/-][0-9]{1,2}[/-][0-9]{2,4}) *)
  seq [WordB; lit "Date of Birth"; dos_puntos; Grp 1 fecha_num];
  (* \bDOB[:\s]*([A-Za-z]{3,9}\s+\d{1,2},?\s+\d{2,4}) *)
  seq [WordB; lit "DOB"; dos_puntos; Grp 1 fecha_mes]
].

(** [([0-9A-Za-z/,\- ]{4,})] *)
Definition valor_dob : regex :=
  Grp 3 (at_least 4 (set [IRange "0" "9"; IRange "A" "Z"; IRange "a" "z";
                           ICh "/"; ICh ","; ICh "-"; ICh " "])).

(** [(?:DOB|D\.?O\.?B\.?)] *)
Definition etiqueta_dob : regex :=
  Alt (lit "DOB")
      (seq [Lit "D"; opt (Lit "."); Lit "O"; opt (Lit "."); Lit "B"; opt (Lit ".")]).

(** The optional identifier before the name: the non-capturing group of
    [\d+\s*-\s*], followed by [?] *)
Definition id_previo : regex :=
  opt (seq [plus digit; star space; Lit "-"; star space]).

Definition NAME_DOB_REGEXES : list regex := [
  (* \b(NAME),\s*(NAME).*?\bDOB[:\s]*(VALUE) *)
  seq [WordB; Grp 1 nombre_rgx; Lit ","; star space; Grp 2 nombre_rgx;
       lazy_star Any; WordB; lit "DOB"; dos_puntos; valor_dob];
  (* \bPatient\s*Name[:\s]*(NAME),\s*(NAME).*?\bDOB[:\s]*(VALUE) *)
  seq [WordB; lit "Patient"; star space; lit "Name"; dos_puntos;
       Grp 1 nombre_rgx; Lit ","; star space; Grp 2 nombre_rgx;
       lazy_star Any; WordB; lit "DOB"; dos_puntos; valor_dob];
  (* \bPatient[:\s]*(?:ID)?(NAME),\s*(NAME).*?\bDOB[:\s]*(VALUE) *)
  seq [WordB; lit "Patient"; dos_puntos; id_previo;
       Grp 1 nombre_rgx; Lit ","; star space; Grp 2 nombre_rgx;
       lazy_star Any; WordB; lit "DOB"; dos_puntos; valor_dob];
  (* \b(NAME),\s*(NAME)[^ \n]{0,60}?\b(?:DOB|D\.?O\.?B\.?)[:\s]*(VALUE) *)
  seq [WordB; Grp 1 nombre_rgx; Lit ","; star space; Grp 2 nombre_rgx;
       Rep false 0 (Some 60) (Cls true [ICh " "; ICh lf]);
       WordB; etiqueta_dob; dos_puntos; valor_dob]
].

Definition NAME_ONLY_REGEXES : list regex := [
  (* \bPatient\s*Name[:\s]*(NAME),\s*(NAME)\b *)
  seq [WordB; lit "Patient"; star space; lit "Name"; dos_puntos;
       Grp 1 nombre_rgx; Lit ","; star space; Grp 2 nombre_rgx; WordB];
  (* \bPatient[:\s]*(?:ID)?(NAME),\s*(NAME)\b *)
  seq [WordB; lit "Patient"; dos_puntos; id_previo;
       Grp 1 nombre_rgx; Lit ","; star space; Grp 2 nombre_rgx; WordB];
  (* \b(NAME),\s*(NAME)\s*(?:DOB|D\.?O\.?B\.?)\b *)
  seq [WordB; Grp 1 nombre_rgx; Lit ","; star space; Grp 2 nombre_rgx;
       star space; etiqueta_dob; WordB]
].

Definition formar_nombre (fn ln : string) : string :=
  let nombre := strip (ln ++ " " ++ fn) in
  let nombre := join " " (filter truthy (split nombre)) in
  let nombre := upper nombre in
  limpiar_nombre nombre.

(** What the two searches and the orchestrator return: a pair whose
    components are a [str] or [None]. *)
Definition resultado : Type := (option string * option string)%type.

Definition truthy_opt (o : option string) : bool :=
  match o with Some s => truthy s | None => false end.

(** The inner loop of buscar_por_linea over the matches of one pattern:
    [Some] when it returns, [None] when it runs to its end. *)
Fixpoint linea_matches (ms : list match_obj) : option (string * string) :=
  match ms with
  | [] => None
  | m :: ms' =>
      let g1 := strip (group m 1) in
      let g2 := strip (group m 2) in
      let g3 := strip (group m 3) in
      match normalizar_fecha g3 with
      | None => linea_matches ms'                       (* continue *)
      | Some dob =>
          let nombre := formar_nombre g2 g1 in
          if es_nombre_valido nombre then Some (nombre, dob)
          else linea_matches ms'
      end
  end.

Fixpoint linea_regexes (rs : list regex) (texto : string) : resultado :=
  match rs with
  | [] => (None, None)
  | rgx :: rs' =>
      match linea_matches (finditer IGNORECASE_DOTALL rgx texto) with
      | Some (nombre, dob) => (Some nombre, Some dob)
      | None => linea_regexes rs' texto
      end
  end.

Definition buscar_por_linea (texto : string) : resultado :=
  linea_regexes NAME_DOB_REGEXES texto.

Definition ventana_previa (texto : string) (pos ancho : nat) : string :=
  let ini := pos - ancho in                            (* max(0, pos - ancho) *)
  slice ini pos texto.

(** [([A-Z][A-Za-z' \-]+),\s*([A-Z][A-Za-z' \-]+)\s*$] and the same pattern
    without its end *)
Definition par_final : regex :=
  seq [Grp 1 nombre_rgx; Lit ","; star space; Grp 2 nombre_rgx; star space; Eol].

Definition par_suelto : regex :=
  seq [Grp 1 nombre_rgx; Lit ","; star space; Grp 2 nombre_rgx].

Fixpoint proximidad_matches (texto : string) (ms : list match_obj)
  : option (string * string) :=
  match ms with
  | [] => None
  | m :: ms' =>
      let raw_fecha := group m 1 in
      match normalizar_fecha raw_fecha with
      | None => proximidad_matches texto ms'            (* continue *)
      | Some dob =>
          let win := ventana_previa texto (m_start m) 200 in
          let mname :=
            match search IGNORECASE_MULTILINE par_final win with
            | Some mn => Some mn
            | None => search IGNORECASE par_suelto win
            end in
          match mname with
          | Some mn =>
              let last := strip (group mn 1) in
              let first := strip (group mn 2) in
              let nombre := formar_nombre first last in
              if es_nombre_valido nombre then Some (nombre, dob)
              else proximidad_matches texto ms'
          | None => proximidad_matches texto ms'
          end
      end
  end.

Fixpoint proximidad_regexes (rs : list regex) (texto : string) : resultado :=
  match rs with
  | [] => (None, None)
  | rgx :: rs' =>
      match proximidad_matches texto (finditer IGNORECASE rgx texto) with
      | Some (nombre, dob) => (Some nombre, Some dob)
      | None => proximidad_regexes rs' texto
      end
  end.

Definition buscar_por_proximidad (texto : string) : resultado :=
  proximidad_regexes DOB_REGEXES texto.

(** The first loop of the last resort: [first_dob] *)
Fixpoint primera_dob (rs : list regex) (texto : string) : option string :=
  match rs with
  | [] => None
  | rgx :: rs' =>
      match search IGNORECASE rgx texto with
      | Some m =>
          match normalizar_fecha (group m 1) with
          | Some d => Some d                            (* break *)
          | None => primera_dob rs' texto               (* continue *)
          end
      | None => primera_dob rs' texto
      end
  end.

(** Its second loop, over the name-only patterns *)
Fixpoint primer_nombre (rs : list regex) (texto : string) : option string :=
  match rs with
  | [] => None
  | rgx :: rs' =>
      match search IGNORECASE rgx texto with
      | Some m =>
          let last := strip (group m 1) in
          let first := strip (group m 2) in
          let nombre := formar_nombre first last in
          if es_nombre_valido nombre then Some nombre
          else primer_nombre rs' texto
      | None => primer_nombre rs' texto
      end
  end.

Definition ultimo_recurso (texto : string) : resultado :=
  let first_dob := primera_dob DOB_REGEXES texto in
  if truthy_opt first_dob then
    match primer_nombre NAME_ONLY_REGEXES texto with
    | Some nombre => (Some nombre, first_dob)
    | None => (None, None)
    end
  else (None, None).

Definition extraer_nombre_dob (texto : string) : resultado :=
  (* 1) *)
  let '(nombre, dob) := buscar_por_linea texto in
  if truthy_opt nombre && truthy_opt dob then (nombre, dob) else
  (* 2) *)
  let '(nombre, dob) := buscar_por_proximidad texto in
  if truthy_opt nombre && truthy_opt dob then (nombre, dob) else
  (* 3) *)
  ultimo_recurso texto.

(** procesar_pdf, from the text that the PDF reader or the OCR gives for
    the file: leer_texto_pdf returns it normalised. *)
Definition procesar_pdf (txt : string) : resultado :=
  let texto := normalizar_ocr txt in
  if negb (truthy (strip texto)) then (None, None)
  else extraer_nombre_dob texto.

End ConParser.

(** *** Destination of a renamed file *)

Section Destino.

(** [os.sep], and the paths for which [os.path.exists] answers true *)
Variable sep : string.
Variable existentes : list string.

(** [os.path.join(a, b)] for a directory [a] that does not end with the
    separator and a file name [b] that has none: limpiar_nombre leaves no
    slash, backslash or colon in a name. *)
Definition path_join (a b : string) : string := a ++ sep ++ b.

Definition CARPETA : string := "PDFs2".
Definition DESTINO : string := path_join CARPETA "Renamed".

Definition path_exists (ruta : string) : bool :=
  if in_dec string_dec ruta existentes then true else false.

(** The [while] loop of generar_destino, entered with the candidate
    [ruta_final] and the next suffix [i]; [None] when [fuel] iterations do
    not end it. *)
Fixpoint destino_loop (fuel : nat) (base : string) (i : nat)
  (ruta_final nombre_final : string) : option (string * string) :=
  if path_exists ruta_final then
    match fuel with
    | O => None
    | S fuel' =>
        let nombre_final := base ++ " (" ++ str i ++ ") - Medical Records.pdf" in
        let ruta_final := path_join DESTINO nombre_final in
        destino_loop fuel' base (S i) ruta_final nombre_final
    end
  else Some (ruta_final, nombre_final).

Definition generar_destino_fuel (fuel : nat) (base : string)
  : option (string * string) :=
  let base := limpiar_nombre base in
  let nombre_final := base ++ " - Medical Records.pdf" in
  let ruta_final := path_join DESTINO nombre_final in
  destino_loop fuel base 1 ruta_final nombre_final.

(** One iteration for each existing path is enough (proved below). *)
Definition generar_destino (base : string) : option (string * string) :=
  generar_destino_fuel (List.length existentes) base.

End Destino.

End Renombrador.

(** ** etl_autorizaciones.py: the date-of-birth extractor *)

Module Etl.
Import PyStr Re.

(** [str.maketrans("OQIlSsCBZ", "001155682")] *)
Definition tabla : list (ascii * ascii) := [
  ("O", "0"); ("Q", "0"); ("I", "1"); ("l", "1"); ("S", "5"); ("s", "5");
  ("C", "6"); ("B", "8"); ("Z", "2")
]%char.

Fixpoint traducir (t : list (ascii * ascii)) (c : ascii) : ascii :=
  match t with
  | [] => c
  | (a, b) :: t' => if Ascii.eqb a c then b else traducir t' c
  end.

(** [s.translate(tabla)] *)
Definition translate (t : list (ascii * ascii)) (s : string) : string :=
  map_str (traducir t) s.

(** [DATE\s*OF\s*BIRTH[:\s]*([0-9OQIlSsCBZ]{6,12})] *)
Definition dob_rgx : regex :=
  seq [lit "DATE"; star space; lit "OF"; star space; lit "BIRTH";
       star (set [ICh ":"; ISpace]);
       Grp 1 (times 6 12
                (set [IRange "0" "9"; ICh "O"; ICh "Q"; ICh "I"; ICh "l";
                      ICh "S"; ICh "s"; ICh "C"; ICh "B"; ICh "Z"]))].

(** [(\d{2})(\d{2})(\d{4})] *)
Definition ocho_rgx : regex :=
  seq [Grp 1 (times 2 2 digit); Grp 2 (times 2 2 digit); Grp 3 (times 4 4 digit)].

(** [(\d{1,2})[^\d](\d{1,2})[^\d](\d{2,4})] *)
Definition partes_rgx : regex :=
  seq [Grp 1 (times 1 2 digit); Cls true [IDigit];
       Grp 2 (times 1 2 digit); Cls true [IDigit];
       Grp 3 (times 2 4 digit)].

(** The template [\1/\2/\3] *)
Definition con_barras : list tpl_item := [TGrp 1; TLit "/"; TGrp 2; TLit "/"; TGrp 3].

Definition extract_dob (text : string) : string :=
  match search IGNORECASE dob_rgx text with
  | None => ""
  | Some m =>
      let dob := group m 1 in
      let dob := replace "-" "/" (translate tabla dob) in
      let dob := sub no_flags ocho_rgx con_barras dob in
      let dob := sub no_flags partes_rgx con_barras dob in
      if (length dob =? 8) && negb (contains "/" dob)
      then take 2 dob ++ "/" ++ slice 2 4 dob ++ "/" ++ drop 4 dob
      else dob
  end.

(** *** The other extractors and the file names *)

(** FORBIDDEN, a raw string: the backslash occurs twice in it *)
Definition FORBIDDEN : string :=
  "<>:" ++ String "034"%char "/\\|?*".

Definition clean_text (txt : string) : string := join " " (split txt).

Definition title_case (s : string) : string :=
  join " " (map capitalize (split (lower s))).

(** [for ch in chars: s = s.replace(ch, "")] *)
Fixpoint quitar (chars : string) (s : string) : string :=
  match chars with
  | EmptyString => s
  | String ch chars' => quitar chars' (replace (String ch "") "" s)
  end.

(** clean_filename on a [str]; [None] is treated as the empty string *)
Definition clean_filename (s : string) : string :=
  let s := join " " (split s) in
  let s := quitar FORBIDDEN s in
  take 150 (strip s).

(** The class of a name payload: the letters, the space, the comma, the
    dot, the apostrophe and the hyphen; its accented capitals and N with
    tilde are given by their code points. *)
Definition payload : regex :=
  plus (set [IRange "A" "Z"; ICh "193"; ICh "201"; ICh "205"; ICh "211";
             ICh "218"; ICh "209"; ICh " "; ICh ","; ICh "."; ICh "'"; ICh "-"]).

(** [MEMB\s*NAME[:\s]*(PAYLOAD)] *)
Definition memb_rgx : regex :=
  seq [lit "MEMB"; star space; lit "NAME"; star (set [ICh ":"; ISpace]);
       Grp 1 payload].

(** [\b([A-Z])\b] *)
Definition inicial_rgx : regex :=
  seq [WordB; Grp 1 (set [IRange "A" "Z"]); WordB].

(** [\s{2,}] *)
Definition espacios_rgx : regex := at_least 2 space.

Definition extract_patient_name (text : string) : string :=
  let text := replace "MEMN NAME" "MEMB NAME" (replace "MEMS NAME" "MEMB NAME" text) in
  match search IGNORECASE memb_rgx text with
  | None => ""
  | Some m =>
      let raw := group m 1 in
      let name :=
        join " " (rev (filter truthy (map strip (split_sep "," raw)))) in
      let name := sub no_flags inicial_rgx [] name in
      let name := sub no_flags espacios_rgx [TLit " "] name in
      title_case (strip name)
  end.

(** [REFERRING\s+PHYSICIAN.*?NAME[:\s]*(PAYLOAD)] and
    [PRIMARY\s+CARE\s+PHYSICIAN.*?NAME[:\s]*(PAYLOAD)] *)
Definition referring_rgx : regex :=
  seq [lit "REFERRING"; plus space; lit "PHYSICIAN"; lazy_star Any;
       lit "NAME"; star (set [ICh ":"; ISpace]); Grp 1 payload].

Definition primary_rgx : regex :=
  seq [lit "PRIMARY"; plus space; lit "CARE"; plus space; lit "PHYSICIAN";
       lazy_star Any; lit "NAME"; star (set [ICh ":"; ISpace]); Grp 1 payload].

Definition extract_pcp (text : string) : string :=
  let m :=
    match search IGNORECASE_DOTALL referring_rgx text with
    | Some m => Some m
    | None => search IGNORECASE_DOTALL primary_rgx text
    end in
  match m with
  | None => ""
  | Some m =>
      let raw := group m 1 in
      let raw := strip (replace ":" "" (replace "NAME" "" raw)) in
      let raw := sub no_flags espacios_rgx [TLit " "] raw in
      title_case raw
  end.

(** The class [[A-Z0-9 ,.'&/\-]] *)
Definition org_cls : list item :=
  [IRange "A" "Z"; IRange "0" "9"; ICh " "; ICh ","; ICh "."; ICh "'";
   ICh "&"; ICh "/"; ICh "-"].

(** [^\s*([A-Z0-9 ,.'&/\-]+IPA)\s*$] *)
Definition ipa_rgx : regex :=
  seq [Bol; star space; Grp 1 (Seq (plus (set org_cls)) (lit "IPA"));
       star space; Eol].

(** The group of [[A-Z][A-Z0-9 ,.'&/\-]*MEDICAL\s+GROUP] and the rest of
    the line *)
Definition grupo_rgx : regex :=
  Grp 1 (seq [set [IRange "A" "Z"]; star (set org_cls); lit "MEDICAL";
              plus space; lit "GROUP"; star (Cls true [ICh "010"])]).

Definition extract_ipa (text : string) : string :=
  let m :=
    match search IGNORECASE_MULTILINE ipa_rgx text with
    | Some m => Some m
    | None => search IGNORECASE grupo_rgx text
    end in
  let ipa := match m with Some m => strip (group m 1) | None => "" end in
  let ipa := sub no_flags espacios_rgx [TLit " "] ipa in
  title_case ipa.

End Etl.

(** ** Vocabulary of the properties *)

Module Spec.
Import PyStr Re Renombrador.

(** [sub] occurs in [s] *)
Definition occurs (sub s : string) : Prop :=
  exists pre post, s = pre ++ sub ++ post.

(** A space with text on both sides *)
Definition interior_space (s : string) : Prop :=
  exists pre post, pre <> "" /\ post <> "" /\ s = pre ++ " " ++ post.

(** Three consecutive digits *)
Definition digit_run3 (s : string) : Prop :=
  exists pre a b c post,
    s = pre ++ String a (String b (String c post)) /\
    is_digit a = true /\ is_digit b = true /\ is_digit c = true.

Fixpoint count (c : ascii) (s : string) : nat :=
  match s with
  | EmptyString => 0
  | String a s' => (if Ascii.eqb a c then 1 else 0) + count c s'
  end.

(** Number of leading characters that pass [ok] *)
Fixpoint run (ok : ascii -> bool) (s : string) : nat :=
  match s with
  | String c s' => if ok c then S (run ok s') else 0
  | EmptyString => 0
  end.

(** Some position of [s] starts [k] characters that pass [ok] *)
Fixpoint has_run (ok : ascii -> bool) (k : nat) (s : string) : bool :=
  (k <=? run ok s) ||
  match s with
  | EmptyString => false
  | String _ s' => has_run ok k s'
  end.

(** The cursor [j] characters further *)
Fixpoint advance (j : nat) (cur : cursor) : cursor :=
  match j with
  | O => cur
  | S j' =>
      match rest cur with
      | String c s' => advance j' (Cursor (S (pos cur)) (Some c) s')
      | EmptyString => cur
      end
  end.

Definition is_blank (c : ascii) : bool := Ascii.eqb " " c || Ascii.eqb tab c.

(** Every maximal run of spaces and tabs becomes one space; [in_run] tells
    that the character before was one of them. *)
Fixpoint collapse_go (in_run : bool) (s : string) : string :=
  match s with
  | EmptyString => EmptyString
  | String c s' =>
      if is_blank c
      then if in_run then collapse_go true s' else String " " (collapse_go true s')
      else String c (collapse_go false s')
  end.

Definition collapse (s : string) : string := collapse_go false s.

(** Line breaks of a text, a CR immediately followed by LF being one *)
Fixpoint line_breaks (s : string) : nat :=
  match s with
  | EmptyString => 0
  | String c s' =>
      if Ascii.eqb c cr
      then match s' with
           | String d _ => if Ascii.eqb d lf then line_breaks s' else S (line_breaks s')
           | EmptyString => 1
           end
      else if Ascii.eqb c lf then S (line_breaks s')
      else line_breaks s'
  end.

(** No two neighbouring characters of [s] are both a space or a tab *)
Definition sin_blancos_seguidos (s : string) : Prop :=
  forall pre a b post,
    s = pre ++ String a (String b post) -> (is_blank a && is_blank b) = false.

(** The keys of [rep] whose replacement changes the text *)
Definition claves : list string := ["D0B"; "D0 B"; "D.O.B"; "D 0 B"; " O/"].

Fixpoint repetir (n : nat) (c : ascii) : string :=
  match n with O => "" | S k => String c (repetir k c) end.

Definition nl : string := chr lf.

(** The text begins with a space or a tab *)
Definition starts_blank (s : string) : bool :=
  match s with String a _ => is_blank a | EmptyString => false end.

(** Two neighbouring characters of the text are spaces or tabs *)
Fixpoint adjacent_blanks (s : string) : bool :=
  match s with
  | EmptyString => false
  | String a t => (is_blank a && starts_blank t) || adjacent_blanks t
  end.

(** The character [a] replaced by [b] *)
Definition swap_char (a b c : ascii) : ascii := if Ascii.eqb a c then b else c.

(** The loop of normalizar_ocr over [rep] *)
Definition reemplazos (texto : string) : string :=
  fold_left (fun t ab => replace (fst ab) (snd ab) t) rep texto.

(** Two lines separated by CR LF *)
Definition texto_crlf : string := "a" ++ chr cr ++ chr lf ++ "b".

(** A label with an OCR confusion, a double space, a tab and a CR *)
Definition texto_dob_sucio : string :=
  "Patient  D.O.B:" ++ chr tab ++ "03/04/1980" ++ chr cr.

(** The first end-to-end scenario *)
Definition texto_smith : string :=
  "Patient Name: SMITH, JOHN ... DOB: 03/04/1980".

(** A birth date before the labelled name and another one after it *)
Definition texto_dos_fechas : string :=
  "DOB: 01/01/1990" ++ nl ++ "Patient Name: SMITH, JOHN" ++ nl
    ++ "DOB: 03/04/1980" ++ nl.

(** The second scenario: 60 characters of heading, the name, 150
    characters, then the label and the date (the label starts at index
    221). *)
Definition cabecera : string :=
  "LabCorp Laboratory Corporation of America" ++ nl
    ++ "Specimen 04217731" ++ nl.

Definition texto_garcia : string :=
  cabecera ++ "GARCIA, ANA" ++ nl ++ repetir 149 "." ++
    "Date of Birth: 05/06/1975" ++ nl.

(** A complete result: a name that passes the validator together with an
    output of the date normaliser *)
Definition completo (dtparse : string -> option Dateutil.datetime)
  (r : resultado) : Prop :=
  exists nombre dob,
    r = (Some nombre, Some dob) /\
    es_nombre_valido nombre = true /\
    exists raw, normalizar_fecha dtparse raw = Some dob.

(** [r] matches nowhere in a text that satisfies [Q], whatever follows it
    in the pattern *)
Definition blocked (f : flags) (Q : string -> Prop) (r : regex) : Prop :=
  forall cur cs k, Q (rest cur) -> mt f r cur cs k = None.

(** [Q] holds of the texts in which no character passes [p] *)
Fixpoint none_of (p : ascii -> bool) (s : string) : bool :=
  match s with
  | EmptyString => true
  | String c s' => negb (p c) && none_of p s'
  end.

(** The character [c] replaced by [b] when it passes [ok] *)
Definition subst_char (ok : ascii -> bool) (b c : ascii) : ascii :=
  if ok c then b else c.

(** Every maximal run of characters that pass [ok] becomes one space;
    [in_run] tells that the character before passed. *)
Fixpoint squeeze_go (ok : ascii -> bool) (in_run : bool) (s : string) : string :=
  match s with
  | EmptyString => EmptyString
  | String c s' =>
      if ok c
      then if in_run then squeeze_go ok true s' else String " " (squeeze_go ok true s')
      else String c (squeeze_go ok false s')
  end.

Definition squeeze (ok : ascii -> bool) (s : string) : string :=
  squeeze_go ok false s.

(** The characters of [s] that pass [ok] are single spaces: none follows
    another; [prev_ok] tells that the character before passed. *)
Fixpoint tight_go (ok : ascii -> bool) (prev_ok : bool) (s : string) : bool :=
  match s with
  | EmptyString => true
  | String c s' =>
      if ok c
      then Ascii.eqb c " " && negb prev_ok && tight_go ok true s'
      else tight_go ok false s'
  end.

Definition tight (ok : ascii -> bool) (s : string) : bool := tight_go ok false s.

Definition starts_space (s : string) : bool :=
  match s with String c _ => is_space c | EmptyString => false end.

(** The characters that limpiar_nombre replaces by a hyphen *)
Definition ilegal (c : ascii) : bool :=
  existsb (Ascii.eqb c)
    ["\"; "/"; "*"; "?"; ":"; dquote; "<"; ">"; "|"; cr; lf]%char.

(** The names that generar_destino tries, in order: without a suffix, then
    with the suffixes (1), (2), ... *)
Definition nombre_candidato (base : string) (i : nat) : string :=
  match i with
  | O => base ++ " - Medical Records.pdf"
  | S _ => base ++ " (" ++ Dateutil.str i ++ ") - Medical Records.pdf"
  end.

Definition ruta_candidata (sep base : string) (i : nat) : string :=
  path_join sep (DESTINO sep) (nombre_candidato base i).

(** A word: not empty and without white space *)
Definition palabra (w : string) : Prop := w <> "" /\ none_of is_space w = true.

(** The characters of [s] that pass [keep] *)
Fixpoint filter_str (keep : ascii -> bool) (s : string) : string :=
  match s with
  | EmptyString => EmptyString
  | String c s' => if keep c then String c (filter_str keep s') else filter_str keep s'
  end.

(** The words that a pattern made of literals, sequences, alternatives and
    options can match; [None] for the other patterns. *)
Fixpoint words (r : regex) : option (list string) :=
  match r with
  | Eps => Some [""]
  | Lit a => Some [String a ""]
  | Seq r1 r2 =>
      match words r1, words r2 with
      | Some ws1, Some ws2 =>
          Some (flat_map (fun w1 => map (fun w2 => w1 ++ w2) ws2) ws1)
      | _, _ => None
      end
  | Alt r1 r2 =>
      match words r1, words r2 with
      | Some ws1, Some ws2 => Some (ws1 ++ ws2)%list
      | _, _ => None
      end
  | Rep _ 0 (Some 1) r1 =>
      match words r1 with
      | Some ws1 => Some ("" :: ws1)
      | None => None
      end
  | Grp _ r1 => words r1
  | _ => None
  end.

(** [w] occurs in [s], the case of the letters apart *)
Definition occurs_ci (w s : string) : Prop := occurs (upper w) (upper s).

End Spec.

(** * Properties *)

Import PyStr Re Dateutil Renombrador Spec.

(** ** Strings *)

Lemma prefix_iff (a s : string) :
  prefix a s = true <-> exists post, s = a ++ post.
Proof.
  revert s; induction a as [|c a IH]; intros s; simpl.
  - split; [intros _; now exists s | now destruct s].
  - destruct s as [|d s]; simpl.
    + split; [discriminate | intros [post H]; discriminate].
    + destruct (ascii_dec c d) as [->|ne].
      * rewrite IH. split; intros [post H]; exists post.
        -- now rewrite H.
        -- now injection H.
      * split; [discriminate | intros [post H]].
        injection H as H1 _. now elim ne.
Qed.

Lemma contains_iff (a s : string) : contains a s = true <-> occurs a s.
Proof.
  induction s as [|d s IH]; cbn [contains].
  - rewrite orb_false_r, prefix_iff. split.
    + intros [post H]. now exists "", post.
    + intros [[|c pre] [post H]]; [now exists post | discriminate].
  - rewrite orb_true_iff, prefix_iff, IH. split.
    + intros [[post H] | [pre [post H]]].
      * now exists "", post.
      * exists (String d pre), post. simpl. now rewrite H.
    + intros [[|c pre] [post H]].
      * left. now exists post.
      * right. simpl in H. injection H as _ H. now exists pre, post.
Qed.

Lemma contains_false_iff (a s : string) : contains a s = false <-> ~ occurs a s.
Proof.
  rewrite <- contains_iff. destruct (contains a s); split; intro H; easy.
Qed.

Lemma length_map_str (f : ascii -> ascii) (s : string) :
  length (map_str f s) = length s.
Proof. induction s; simpl; congruence. Qed.

Lemma length_upper (s : string) : length (upper s) = length s.
Proof. apply length_map_str. Qed.

Lemma map_str_app (f : ascii -> ascii) (a b : string) :
  map_str f (a ++ b) = map_str f a ++ map_str f b.
Proof. induction a; simpl; congruence. Qed.

Lemma map_str_split (f : ascii -> ascii) (s x y : string) :
  map_str f s = x ++ y ->
  exists a b, s = a ++ b /\ map_str f a = x /\ map_str f b = y.
Proof.
  revert s; induction x as [|c x IH]; intros s H; simpl in H.
  - now exists "", s.
  - destruct s as [|d s]; [discriminate|]. simpl in H.
    injection H as Hc H. destruct (IH _ H) as (a & b & -> & Ha & Hb).
    exists (String d a), b. simpl. now rewrite Hc, Ha.
Qed.

Lemma ascii_cases (P : ascii -> Prop) :
  (forall n, n < 256 -> P (ascii_of_nat n)) -> forall c, P c.
Proof.
  intros H c. rewrite <- (ascii_nat_embedding c). apply H, nat_ascii_bounded.
Qed.

Lemma upper_char_digit (c : ascii) : is_digit (upper_char c) = is_digit c.
Proof.
  revert c. apply ascii_cases. intros n Hn.
  do 256 (destruct n as [|n]; [reflexivity|]). lia.
Qed.

Lemma upper_char_space (c : ascii) : upper_char c = " "%char <-> c = " "%char.
Proof.
  revert c. apply ascii_cases. intros n Hn.
  do 256 (destruct n as [|n]; [vm_compute; split; (reflexivity || discriminate)|]).
  lia.
Qed.

(** ** The matcher on a repeated character class *)

Lemma rep_loop_eq body greedy lo hi k fuel n cur cs :
  rep_loop body greedy lo hi k fuel n cur cs =
  let stop := fun _ : unit => if lo <=? n then k cur cs else None in
  let more := fun _ : unit =>
    match fuel with
    | O => None
    | S fuel' =>
        if within hi n
        then body cur cs
               (fun cur' cs' =>
                  if pos cur <? pos cur'
                  then rep_loop body greedy lo hi k fuel' (S n) cur' cs'
                  else None)
        else None
    end in
  if greedy then or_else (more tt) stop else or_else (stop tt) more.
Proof. destruct fuel; reflexivity. Qed.

Lemma rep_loop_cls (f : flags) (neg : bool) (items : list item) (lo : nat) :
  forall fuel n cur cs,
    length (rest cur) <= fuel ->
    rep_loop (mt f (Cls neg items)) true lo None accept fuel n cur cs =
    if lo <=? n + run (cls_match f neg items) (rest cur)
    then Some (advance (run (cls_match f neg items) (rest cur)) cur, cs)
    else None.
Proof.
  induction fuel as [|fuel IH]; intros n [p pv s] cs Hlen;
    rewrite rep_loop_eq; cbn [rest pos] in *.
  - destruct s; [|simpl in Hlen; lia]. cbn. rewrite Nat.add_0_r.
    now destruct (lo <=? n).
  - destruct s as [|c s]; cbn [within mt step rest pos run].
    + cbn. rewrite Nat.add_0_r. now destruct (lo <=? n).
    + destruct (cls_match f neg items c) eqn:Hc.
      * rewrite IH by (simpl in *; lia). cbn [rest pos advance or_else].
        replace (p <? S p) with true by (symmetry; apply Nat.ltb_lt; lia).
        replace (n + S (run (cls_match f neg items) s))
          with (S n + run (cls_match f neg items) s) by lia.
        destruct (lo <=? S n + run (cls_match f neg items) s) eqn:Hlo;
          [reflexivity|].
        apply Nat.leb_gt in Hlo.
        replace (lo <=? n) with false; [reflexivity|].
        symmetry; apply Nat.leb_gt; lia.
      * cbn. rewrite Nat.add_0_r. now destruct (lo <=? n).
Qed.

Lemma mt_rep_cls (f : flags) (neg : bool) (items : list item) (lo : nat) cur cs :
  mt f (Rep true lo None (Cls neg items)) cur cs accept =
  if lo <=? run (cls_match f neg items) (rest cur)
  then Some (advance (run (cls_match f neg items) (rest cur)) cur, cs)
  else None.
Proof.
  change (mt f (Rep true lo None (Cls neg items)) cur cs accept)
    with (rep_loop (mt f (Cls neg items)) true lo None accept
            (length (rest cur)) 0 cur cs).
  now rewrite rep_loop_cls by lia.
Qed.

Lemma search_at_rep_cls f neg items lo p pv s :
  search_at f (Rep true lo None (Cls neg items)) p pv s = None <->
  has_run (cls_match f neg items) lo s = false.
Proof.
  revert p pv; induction s as [|c s IH]; intros p pv;
    cbn [search_at has_run]; rewrite mt_rep_cls; cbn [rest];
    destruct (lo <=? run (cls_match f neg items) _); cbn [orb];
    try (split; [discriminate | discriminate]).
  - split; reflexivity.
  - apply IH.
Qed.

Lemma run_ext (ok ok' : ascii -> bool) (s : string) :
  (forall c, ok c = ok' c) -> run ok s = run ok' s.
Proof. intros H; induction s; simpl; rewrite ?H, ?IHs; reflexivity. Qed.

Lemma has_run_ext (ok ok' : ascii -> bool) (k : nat) (s : string) :
  (forall c, ok c = ok' c) -> has_run ok k s = has_run ok' k s.
Proof.
  intros H; induction s; simpl; rewrite ?(run_ext ok ok') by assumption;
    rewrite ?H, ?IHs; reflexivity.
Qed.

Lemma run3_iff (ok : ascii -> bool) (s : string) :
  (3 <=? run ok s) = true <->
  exists a b c post, s = String a (String b (String c post)) /\
                     ok a = true /\ ok b = true /\ ok c = true.
Proof.
  split.
  - destruct s as [|a [|b [|c post]]]; simpl;
      repeat match goal with |- context [if ok ?x then _ else _] =>
        destruct (ok x) eqn:? end; try discriminate.
    intros _. now exists a, b, c, post.
  - intros (a & b & c & post & -> & Ha & Hb & Hc). simpl.
    now rewrite Ha, Hb, Hc.
Qed.

Lemma has_run3_iff (s : string) : has_run is_digit 3 s = true <-> digit_run3 s.
Proof.
  induction s as [|d s IH]; cbn [has_run]; rewrite orb_true_iff, run3_iff.
  - split.
    + intros [(a & b & c & post & H & _) | H]; discriminate.
    + intros ([|x pre] & a & b & c & post & H & _); discriminate.
  - rewrite IH. split.
    + intros [(a & b & c & post & H & Hd) | (pre & a & b & c & post & H & Hd)].
      * now exists "", a, b, c, post.
      * exists (String d pre), a, b, c, post. simpl. now rewrite H.
    + intros ([|x pre] & a & b & c & post & H & Hd).
      * left. now exists a, b, c, post.
      * right. simpl in H. injection H as _ H. now exists pre, a, b, c, post.
Qed.

Lemma search_tres_digitos (s : string) :
  search no_flags tres_digitos s = None <-> has_run is_digit 3 s = false.
Proof.
  unfold search, tres_digitos, at_least, digit, set.
  rewrite search_at_rep_cls.
  now rewrite (has_run_ext _ is_digit) by (intro c; cbn; now rewrite orb_false_r).
Qed.

(** ** The name validator *)

Lemma prefix_chr (a c : ascii) (s : string) :
  prefix (String a "") (String c s) = Ascii.eqb a c.
Proof.
  simpl. destruct (ascii_dec a c) as [->|ne].
  - rewrite Ascii.eqb_refl. now destruct s.
  - symmetry. now apply Ascii.eqb_neq.
Qed.

Lemma contains_space_upper (s : string) :
  contains " " (upper s) = contains " " s.
Proof.
  induction s as [|c s IH]; [reflexivity|].
  change (upper (String c s)) with (String (upper_char c) (upper s)).
  cbn [contains]. rewrite !prefix_chr, IH. f_equal.
  destruct (Ascii.eqb_spec " " (upper_char c)) as [e|ne];
    destruct (Ascii.eqb_spec " " c) as [e'|ne']; try reflexivity.
  - symmetry in e. apply (proj1 (upper_char_space c)) in e. congruence.
  - elim ne. symmetry. apply (proj2 (upper_char_space c)). congruence.
Qed.

Lemma run_digit_upper (s : string) : run is_digit (upper s) = run is_digit s.
Proof.
  induction s as [|c s IH]; [reflexivity|].
  change (upper (String c s)) with (String (upper_char c) (upper s)).
  cbn [run]. now rewrite upper_char_digit, IH.
Qed.

Lemma has_run_digit_upper (s : string) :
  has_run is_digit 3 (upper s) = has_run is_digit 3 s.
Proof.
  induction s as [|c s IH]; [reflexivity|].
  pose proof (run_digit_upper (String c s)) as Hr.
  change (upper (String c s)) with (String (upper_char c) (upper s)) in *.
  cbn [has_run]. now rewrite Hr, IH.
Qed.

Lemma en_negativos (up : string) :
  existsb (fun neg => contains neg up) NEGATIVOS = true <->
  exists neg, In neg NEGATIVOS /\ occurs neg up.
Proof.
  rewrite existsb_exists.
  split; intros (neg & Hin & H); exists neg; split; trivial; now apply contains_iff.
Qed.

Lemma es_nombre_valido_false (nombre : string) :
  es_nombre_valido nombre = false <->
  (length nombre < 5 \/ ~ occurs " " nombre \/ digit_run3 nombre \/
   exists neg, In neg NEGATIVOS /\ occurs neg (upper nombre)).
Proof.
  unfold es_nombre_valido. rewrite length_upper.
  destruct (length nombre <? 5) eqn:H5.
  { apply Nat.ltb_lt in H5. split; auto. }
  apply Nat.ltb_ge in H5.
  destruct (existsb _ NEGATIVOS) eqn:Hneg.
  { apply en_negativos in Hneg. split; auto. }
  assert (Hno : ~ exists neg, In neg NEGATIVOS /\ occurs neg (upper nombre)).
  { intros H. apply en_negativos in H. congruence. }
  rewrite contains_space_upper.
  destruct (contains " " nombre) eqn:Hsp; cbn [negb].
  2:{ apply contains_false_iff in Hsp. split; auto. }
  apply contains_iff in Hsp.
  destruct (search no_flags tres_digitos (upper nombre)) eqn:Hd.
  - assert (Hr : has_run is_digit 3 nombre = true).
    { rewrite <- has_run_digit_upper.
      destruct (has_run is_digit 3 (upper nombre)) eqn:E; [reflexivity|].
      apply search_tres_digitos in E. congruence. }
    apply has_run3_iff in Hr. split; auto.
  - apply search_tres_digitos in Hd. rewrite has_run_digit_upper in Hd.
    split; [discriminate|].
    intros [H | [H | [H | H]]].
    + lia.
    + now elim H.
    + apply has_run3_iff in H. congruence.
    + now elim Hno.
Qed.

(** C7 (as amended): the validator answers false exactly when the candidate
    has fewer than 5 characters, or contains no space at all (a leading or a
    trailing space counts as one), or contains three consecutive digits, or
    its upper-case form contains an entry of the blocklist; "Jo", "O'BRIEN"
    and "LOS ANGELES CLINIC" are invalid and "Maria Lopez" is valid. *)
Theorem es_nombre_valido_rechazo :
  (forall nombre,
     es_nombre_valido nombre = false <->
     (length nombre < 5 \/ ~ occurs " " nombre \/ digit_run3 nombre \/
      exists neg, In neg NEGATIVOS /\ occurs neg (upper nombre))) /\
  es_nombre_valido "Jo" = false /\
  es_nombre_valido "O'BRIEN" = false /\
  es_nombre_valido "LOS ANGELES CLINIC" = false /\
  es_nombre_valido "Maria Lopez" = true.
Proof.
  split; [exact es_nombre_valido_false|].
  repeat split; vm_compute; reflexivity.
Qed.

Ltac pelar E pre :=
  destruct pre as [|? pre]; cbn in E;
  [try congruence | try discriminate E; injection E as ? E].

(** C7 as stated fails on a name whose only space is its last character:
    it has no interior space, and the validator accepts it. *)
Lemma es_nombre_valido_espacio_final :
  ~ (es_nombre_valido "Maria " = false <->
     (length "Maria " < 5 \/ ~ interior_space "Maria " \/ digit_run3 "Maria " \/
      exists neg, In neg NEGATIVOS /\ occurs neg (upper "Maria "))).
Proof.
  intros [_ H].
  assert (Hv : es_nombre_valido "Maria " = true) by (vm_compute; reflexivity).
  rewrite H in Hv; [discriminate|].
  right; left. intros (pre & post & Hpre & Hpost & E).
  do 6 (pelar E pre). pelar E pre.
Qed.

(** C10: a candidate whose upper-case form contains a blocklist entry, be
    it inside a longer word, is rejected. *)
Theorem negativo_como_subcadena (nombre neg : string) :
  In neg NEGATIVOS -> occurs neg (upper nombre) -> es_nombre_valido nombre = false.
Proof.
  intros Hin Hoc. apply es_nombre_valido_false. right; right; right.
  exists neg. now split.
Qed.

(** "CARLOS SMITH" contains the entry "LOS ". *)
Lemma negativo_como_subcadena_carlos :
  In "LOS " NEGATIVOS /\ occurs "LOS " (upper "Carlos Smith") /\
  es_nombre_valido "Carlos Smith" = false.
Proof.
  assert (Hin : In "LOS " NEGATIVOS) by (cbn; tauto).
  assert (Hoc : occurs "LOS " (upper "Carlos Smith"))
    by (exists "CAR", "SMITH"; reflexivity).
  split; [exact Hin|split; [exact Hoc|]].
  exact (negativo_como_subcadena "Carlos Smith" "LOS " Hin Hoc).
Defined.

(** ** The orchestrator *)

Lemma truthy_app (a : string) (c : ascii) (b : string) :
  truthy (a ++ String c b) = true.
Proof. now destruct a. Qed.

Lemma valido_truthy (nombre : string) :
  es_nombre_valido nombre = true -> truthy nombre = true.
Proof. destruct nombre; [vm_compute; discriminate | reflexivity]. Qed.

Section Orquestador.

Variable dtparse : string -> option datetime.

Lemma normalizar_fecha_truthy (s d : string) :
  normalizar_fecha dtparse s = Some d -> truthy d = true.
Proof.
  unfold normalizar_fecha.
  destruct (dtparse _) as [dt|].
  - destruct (_ || _).
    + destruct (search _ _ _); [|discriminate].
      intros [= <-]. apply truthy_app.
    + intros [= <-]. apply truthy_app.
  - destruct (search _ _ _); [|discriminate].
    intros [= <-]. apply truthy_app.
Qed.

Lemma completo_truthy (n d : option string) :
  completo dtparse (n, d) -> truthy_opt n && truthy_opt d = true.
Proof.
  intros (nombre & dob & [= -> ->] & Hv & raw & Hd). cbn.
  now rewrite (valido_truthy _ Hv), (normalizar_fecha_truthy _ _ Hd).
Qed.

Lemma linea_matches_ok (ms : list match_obj) (nombre dob : string) :
  linea_matches dtparse ms = Some (nombre, dob) ->
  es_nombre_valido nombre = true /\ exists raw, normalizar_fecha dtparse raw = Some dob.
Proof.
  induction ms as [|m ms IH]; cbn [linea_matches]; [discriminate|].
  destruct (normalizar_fecha dtparse _) as [d|] eqn:Hd; [|exact IH].
  destruct (es_nombre_valido (formar_nombre _ _)) eqn:Hv; [|exact IH].
  intros [= <- <-]. split; [exact Hv | eauto].
Qed.

Lemma linea_regexes_ok (rs : list regex) (texto : string) :
  linea_regexes dtparse rs texto = (None, None) \/
  completo dtparse (linea_regexes dtparse rs texto).
Proof.
  induction rs as [|rgx rs IH]; cbn [linea_regexes]; [now left|].
  destruct (linea_matches dtparse _) as [[nombre dob]|] eqn:E; [|exact IH].
  right. apply linea_matches_ok in E as [Hv Hd]. now exists nombre, dob.
Qed.

Lemma proximidad_matches_ok (texto : string) (ms : list match_obj)
  (nombre dob : string) :
  proximidad_matches dtparse texto ms = Some (nombre, dob) ->
  es_nombre_valido nombre = true /\ exists raw, normalizar_fecha dtparse raw = Some dob.
Proof.
  induction ms as [|m ms IH]; cbn [proximidad_matches]; [discriminate|].
  destruct (normalizar_fecha dtparse _) as [d|] eqn:Hd; [|exact IH].
  cbv zeta.
  destruct (match search IGNORECASE_MULTILINE par_final _ with
            | Some mn => Some mn
            | None => search IGNORECASE par_suelto _
            end) as [mn|]; [|exact IH].
  destruct (es_nombre_valido (formar_nombre _ _)) eqn:Hv; [|exact IH].
  intros [= <- <-]. split; [exact Hv | eauto].
Qed.

Lemma proximidad_regexes_ok (rs : list regex) (texto : string) :
  proximidad_regexes dtparse rs texto = (None, None) \/
  completo dtparse (proximidad_regexes dtparse rs texto).
Proof.
  induction rs as [|rgx rs IH]; cbn [proximidad_regexes]; [now left|].
  destruct (proximidad_matches dtparse _ _) as [[nombre dob]|] eqn:E; [|exact IH].
  right. apply proximidad_matches_ok in E as [Hv Hd]. now exists nombre, dob.
Qed.

Lemma primera_dob_ok (rs : list regex) (texto dob : string) :
  primera_dob dtparse rs texto = Some dob ->
  exists raw, normalizar_fecha dtparse raw = Some dob.
Proof.
  induction rs as [|rgx rs IH]; cbn [primera_dob]; [discriminate|].
  destruct (search _ _ _) as [m|]; [|exact IH].
  destruct (normalizar_fecha dtparse _) as [d|] eqn:Hd; [|exact IH].
  intros [= <-]. eauto.
Qed.

Lemma primer_nombre_ok (rs : list regex) (texto nombre : string) :
  primer_nombre rs texto = Some nombre -> es_nombre_valido nombre = true.
Proof.
  induction rs as [|rgx rs IH]; cbn [primer_nombre]; [discriminate|].
  destruct (search _ _ _) as [m|]; [|exact IH].
  cbv zeta. destruct (es_nombre_valido (formar_nombre _ _)) eqn:Hv; [|exact IH].
  now intros [= <-].
Qed.

Lemma ultimo_recurso_ok (texto : string) :
  ultimo_recurso dtparse texto = (None, None) \/
  completo dtparse (ultimo_recurso dtparse texto).
Proof.
  unfold ultimo_recurso.
  destruct (primera_dob dtparse DOB_REGEXES texto) as [dob|] eqn:Hd;
    cbn [truthy_opt]; [|now left].
  destruct (truthy dob); [|now left].
  destruct (primer_nombre NAME_ONLY_REGEXES texto) as [nombre|] eqn:Hn; [|now left].
  right. exists nombre, dob. repeat split.
  - eapply primer_nombre_ok; eassumption.
  - eapply primera_dob_ok; eassumption.
Qed.

Lemma extraer_nombre_dob_ok (texto : string) :
  extraer_nombre_dob dtparse texto = (None, None) \/
  completo dtparse (extraer_nombre_dob dtparse texto).
Proof.
  unfold extraer_nombre_dob, buscar_por_linea, buscar_por_proximidad.
  destruct (linea_regexes_ok NAME_DOB_REGEXES texto) as [E|E].
  - rewrite E. cbn [truthy_opt andb].
    destruct (proximidad_regexes_ok DOB_REGEXES texto) as [E'|E'].
    + rewrite E'. cbn [truthy_opt andb]. apply ultimo_recurso_ok.
    + destruct (proximidad_regexes dtparse DOB_REGEXES texto) as [n d].
      rewrite (completo_truthy _ _ E'). now right.
  - destruct (linea_regexes dtparse NAME_DOB_REGEXES texto) as [n d].
    rewrite (completo_truthy _ _ E). now right.
Qed.

Lemma buscar_por_linea_gana (texto nombre dob : string) :
  buscar_por_linea dtparse texto = (Some nombre, Some dob) ->
  extraer_nombre_dob dtparse texto = (Some nombre, Some dob).
Proof.
  unfold extraer_nombre_dob, buscar_por_linea. intros E.
  destruct (linea_regexes_ok NAME_DOB_REGEXES texto) as [E'|E'];
    [congruence|].
  rewrite E in *. now rewrite (completo_truthy _ _ E').
Qed.

End Orquestador.

(** C1: the orchestrator returns either [(None, None)] or a pair of a name
    that passes the validator and a date that the normaliser produced;
    never a name without a date nor a date without a name. *)
Theorem extraer_nombre_dob_completo_o_nada
  (dtparse : string -> option datetime) (texto : string) :
  extraer_nombre_dob dtparse texto = (None, None) \/
  exists nombre dob,
    extraer_nombre_dob dtparse texto = (Some nombre, Some dob) /\
    es_nombre_valido nombre = true /\
    exists raw, normalizar_fecha dtparse raw = Some dob.
Proof. exact (extraer_nombre_dob_ok dtparse texto). Qed.

(** C2: when the search by line yields a pair, the orchestrator returns
    that pair, whatever the later strategies would find. *)
Theorem estrategia_linea_gana
  (dtparse : string -> option datetime) (texto nombre dob : string) :
  buscar_por_linea dtparse texto = (Some nombre, Some dob) ->
  extraer_nombre_dob dtparse texto = (Some nombre, Some dob).
Proof. apply buscar_por_linea_gana. Qed.

(** On a text where the last resort alone would pair the name with the
    first birth date of the document, the pair of the search by line is
    returned. *)
Lemma estrategia_linea_gana_dos_fechas :
  buscar_por_linea parse texto_dos_fechas = (Some "SMITH JOHN", Some "03-04-1980") /\
  ultimo_recurso parse texto_dos_fechas = (Some "SMITH JOHN", Some "01-01-1990") /\
  extraer_nombre_dob parse texto_dos_fechas = (Some "SMITH JOHN", Some "03-04-1980").
Proof.
  assert (A : buscar_por_linea parse texto_dos_fechas
              = (Some "SMITH JOHN", Some "03-04-1980"))
    by (vm_compute; reflexivity).
  split; [exact A|split; [vm_compute; reflexivity|]].
  exact (estrategia_linea_gana parse texto_dos_fechas "SMITH JOHN" "03-04-1980" A).
Defined.

(** ** The end-to-end scenarios *)

Lemma texto_smith_resultado (dtparse : string -> option datetime) :
  dtparse "03/04/1980" = Some (Datetime 1980 3 4) ->
  extraer_nombre_dob dtparse texto_smith = (Some "SMITH JOHN", Some "03-04-1980") /\
  procesar_pdf dtparse texto_smith = (Some "SMITH JOHN", Some "03-04-1980").
Proof.
  intros H. split; vm_compute; rewrite H; vm_compute; reflexivity.
Qed.

(** C3 (as amended): on the text of the first scenario the pipeline returns
    the date "03-04-1980" together with a name in upper case (not title
    case) made of the two tokens JOHN and SMITH. *)
Theorem escenario_smith (dtparse : string -> option datetime) :
  dtparse "03/04/1980" = Some (Datetime 1980 3 4) ->
  exists nombre,
    extraer_nombre_dob dtparse texto_smith = (Some nombre, Some "03-04-1980") /\
    procesar_pdf dtparse texto_smith = (Some nombre, Some "03-04-1980") /\
    upper nombre = nombre /\
    Permutation (split nombre) ["JOHN"; "SMITH"].
Proof.
  intros H. destruct (texto_smith_resultado dtparse H) as [E P].
  exists "SMITH JOHN". repeat split; trivial.
  apply perm_swap.
Qed.

Lemma escenario_smith_dateutil :
  parse "03/04/1980" = Some (Datetime 1980 3 4) /\
  exists nombre,
    extraer_nombre_dob parse texto_smith = (Some nombre, Some "03-04-1980") /\
    procesar_pdf parse texto_smith = (Some nombre, Some "03-04-1980") /\
    upper nombre = nombre /\
    Permutation (split nombre) ["JOHN"; "SMITH"].
Proof.
  split; [reflexivity|]. exact (escenario_smith parse eq_refl).
Defined.

(** C3 as stated fails: the name comes out as "SMITH JOHN", not as
    "John Smith". *)
Lemma escenario_smith_no_titulo :
  extraer_nombre_dob parse texto_smith = (Some "SMITH JOHN", Some "03-04-1980") /\
  extraer_nombre_dob parse texto_smith <> (Some "John Smith", Some "03-04-1980").
Proof.
  assert (E : extraer_nombre_dob parse texto_smith
              = (Some "SMITH JOHN", Some "03-04-1980"))
    by (vm_compute; reflexivity).
  split; [exact E|]. rewrite E. discriminate.
Qed.

Lemma texto_garcia_resultado (dtparse : string -> option datetime) :
  dtparse "05/06/1975" = Some (Datetime 1975 5 6) ->
  buscar_por_proximidad dtparse texto_garcia = (Some "GARCIA ANA", Some "05-06-1975") /\
  extraer_nombre_dob dtparse texto_garcia = (Some "GARCIA ANA", Some "05-06-1975").
Proof.
  intros H. split; vm_compute; rewrite H; vm_compute; reflexivity.
Qed.

Lemma texto_garcia_ventana :
  option_map m_start (search IGNORECASE (nth 1 DOB_REGEXES Eps) texto_garcia) = Some 221 /\
  slice 60 71 texto_garcia = "GARCIA, ANA" /\
  occurs "GARCIA, ANA" (ventana_previa texto_garcia 221 200) /\
  ~ occurs "GARCIA, ANA" (ventana_previa texto_garcia 221 140).
Proof.
  repeat split; try (vm_compute; reflexivity).
  - apply contains_iff. vm_compute; reflexivity.
  - apply contains_false_iff. vm_compute; reflexivity.
Qed.

(** C9 (as amended): on a text without a name and a birth date in one
    block, whose "Date of Birth" label and date come 150 characters after
    the name "GARCIA, ANA", inside the window of 200 characters before the
    label, the search by line finds nothing and the search by proximity
    resolves the document: the orchestrator returns the normalised date
    together with a name in upper case (not title case) made of the two
    tokens ANA and GARCIA. *)
Theorem escenario_garcia (dtparse : string -> option datetime) :
  dtparse "05/06/1975" = Some (Datetime 1975 5 6) ->
  buscar_por_linea dtparse texto_garcia = (None, None) /\
  exists nombre,
    buscar_por_proximidad dtparse texto_garcia = (Some nombre, Some "05-06-1975") /\
    extraer_nombre_dob dtparse texto_garcia = (Some nombre, Some "05-06-1975") /\
    upper nombre = nombre /\
    Permutation (split nombre) ["ANA"; "GARCIA"].
Proof.
  intros H. destruct (texto_garcia_resultado dtparse H) as [B E].
  split; [vm_compute; reflexivity|].
  exists "GARCIA ANA". repeat split; trivial.
  apply perm_swap.
Qed.

Lemma escenario_garcia_dateutil :
  parse "05/06/1975" = Some (Datetime 1975 5 6) /\
  buscar_por_linea parse texto_garcia = (None, None) /\
  exists nombre,
    buscar_por_proximidad parse texto_garcia = (Some nombre, Some "05-06-1975") /\
    extraer_nombre_dob parse texto_garcia = (Some nombre, Some "05-06-1975") /\
    upper nombre = nombre /\
    Permutation (split nombre) ["ANA"; "GARCIA"].
Proof.
  split; [reflexivity|]. exact (escenario_garcia parse eq_refl).
Defined.

(** C9 as stated fails: the name comes out as "GARCIA ANA", not as
    "Ana Garcia". *)
Lemma escenario_garcia_no_titulo :
  extraer_nombre_dob parse texto_garcia = (Some "GARCIA ANA", Some "05-06-1975") /\
  extraer_nombre_dob parse texto_garcia <> (Some "Ana Garcia", Some "05-06-1975").
Proof.
  assert (E : extraer_nombre_dob parse texto_garcia
              = (Some "GARCIA ANA", Some "05-06-1975"))
    by (vm_compute; reflexivity).
  split; [exact E|]. rewrite E. discriminate.
Qed.

(** ** The date normaliser at the limits of the year range *)

Lemma normalizar_fecha_numerica_no_falla
  (dtparse : string -> option datetime) :
  normalizar_fecha dtparse "01/01/1899" <> None /\
  normalizar_fecha dtparse "01/01/2101" <> None.
Proof.
  split; unfold normalizar_fecha;
    match goal with |- context [dtparse ?s] => destruct (dtparse s) as [dt|] end;
    try destruct (_ || _); vm_compute; discriminate.
Qed.

(** C4, at the failing inputs: a numeric date of the year 1899 or 2101 is
    not rejected.  The parser resolves the year, the range test raises
    inside the [try], and the handler answers with the digits that the
    pattern finds, whatever the year; no parser makes the function raise on
    these inputs.  The years 1900 and 2100 are accepted. *)
Theorem normalizar_fecha_limites :
  (forall dtparse,
     normalizar_fecha dtparse "01/01/1899" <> None /\
     normalizar_fecha dtparse "01/01/2101" <> None) /\
  normalizar_fecha parse "01/01/1899" = Some "01-01-1899" /\
  normalizar_fecha parse "01/01/2101" = Some "01-01-2101" /\
  normalizar_fecha parse "01/01/1900" = Some "01-01-1900" /\
  normalizar_fecha parse "12/31/2100" = Some "12-31-2100".
Proof.
  split; [exact normalizar_fecha_numerica_no_falla|].
  repeat split; vm_compute; reflexivity.
Qed.

(** ** The date-of-birth extractor of the ETL *)

(** C8, at the failing input: the class of the captured run has no
    separator, so the token with slashes is not captured and the extractor
    returns the empty string; the same token without its slashes is
    translated and gives "05/10/1985". *)
Theorem extract_dob_con_barras :
  Etl.extract_dob "DATE OF BIRTH: O5/1O/1985" = "" /\
  Etl.extract_dob "DATE OF BIRTH: O51O1985" = "05/10/1985".
Proof. split; vm_compute; reflexivity. Qed.

(** ** Replacement of substrings *)

Lemma length_app (a b : string) : length (a ++ b) = length a + length b.
Proof. induction a; simpl; congruence. Qed.

Lemma drop_app (a b : string) : drop (length a) (a ++ b) = b.
Proof. induction a; simpl; trivial. Qed.

Lemma count_app (c : ascii) (a b : string) :
  count c (a ++ b) = count c a + count c b.
Proof. induction a; simpl; lia. Qed.

Lemma replace_go_skip (old new : string) (s : string) :
  forall k, replace_go old new k s = replace_go old new 0 (drop k s).
Proof.
  induction s as [|c s IH]; intros [|k]; try reflexivity.
  cbn [replace_go drop]. apply IH.
Qed.

(** One step of [replace] at an occurrence and away from one *)
Lemma replace_at (old new post : string) (c : ascii) (old' : string) :
  old = String c old' ->
  replace old new (old ++ post) = new ++ replace old new post.
Proof.
  intros ->. unfold replace. cbn [append replace_go].
  assert (Hp : prefix (String c old') (String c (old' ++ post)) = true).
  { apply prefix_iff. now exists post. }
  rewrite Hp. f_equal.
  rewrite replace_go_skip.
  replace (length (String c old') - 1) with (length old') by (simpl; lia).
  now rewrite drop_app.
Qed.

Lemma replace_away (old new : string) (c : ascii) (s : string) :
  prefix old (String c s) = false ->
  replace old new (String c s) = String c (replace old new s).
Proof. intros H. unfold replace. cbn [replace_go]. now rewrite H. Qed.

Lemma replace_ind (old new : string) (P : string -> string -> Prop) :
  old <> "" ->
  P "" "" ->
  (forall post r, P post r -> P (old ++ post) (new ++ r)) ->
  (forall c s r, prefix old (String c s) = false -> P s r -> P (String c s) (String c r)) ->
  forall s, P s (replace old new s).
Proof.
  intros Hne H0 Hat Haway s.
  assert (G : forall n s, length s <= n -> P s (replace old new s)).
  { induction n as [|n IH]; intros [|c t] Hlen; try exact H0.
    - simpl in Hlen; lia.
    - destruct (prefix old (String c t)) eqn:Hp.
      + apply prefix_iff in Hp as [post Hp]. rewrite Hp.
        destruct old as [|d old']; [now elim Hne|].
        rewrite (replace_at _ new post d old' eq_refl).
        apply Hat, IH.
        apply (f_equal length) in Hp. rewrite length_app in Hp.
        simpl in Hp, Hlen. lia.
      + rewrite replace_away by assumption.
        apply Haway; [assumption|]. apply IH. simpl in Hlen; lia. }
  exact (G (length s) s (le_n _)).
Qed.

Lemma count_replace (c : ascii) (old new s : string) :
  old <> "" -> count c old = count c new ->
  count c (replace old new s) = count c s.
Proof.
  intros Hne Hc. apply (replace_ind old new (fun s r => count c r = count c s) Hne).
  - reflexivity.
  - intros post r H. now rewrite !count_app, H, Hc.
  - intros d t r _ H. simpl. now rewrite H.
Qed.

Lemma replace_same (old s : string) : old <> "" -> replace old old s = s.
Proof.
  intros Hne. apply (replace_ind old old (fun s r => r = s) Hne).
  - reflexivity.
  - now intros post r ->.
  - now intros d t r _ ->.
Qed.

Lemma replace_absent (old new s : string) :
  old <> "" -> ~ occurs old s -> replace old new s = s.
Proof.
  intros Hne. revert s.
  apply (replace_ind old new (fun s r => ~ occurs old s -> r = s) Hne).
  - reflexivity.
  - intros post r _ H. elim H. now exists "", post.
  - intros d t r _ IH H. f_equal. apply IH.
    intros (pre & post & E). apply H. exists (String d pre), post.
    simpl. now rewrite E.
Qed.

Lemma replace_chr (a b : ascii) (s : string) :
  replace (chr a) (chr b) s = map_str (swap_char a b) s.
Proof.
  induction s as [|c s IH]; [reflexivity|].
  unfold replace in *. cbn [replace_go]. unfold chr at 1. rewrite prefix_chr.
  unfold swap_char at 1. cbn [map_str].
  destruct (Ascii.eqb a c); cbn; now rewrite IH.
Qed.

(** ** Collapsing the runs of spaces and tabs *)

Lemma blancos_class (c : ascii) :
  cls_match no_flags false [ICh " "; ICh tab] c = is_blank c.
Proof. cbn. unfold ascii_eqb, is_blank. now rewrite orb_false_r. Qed.

Lemma run_le (ok : ascii -> bool) (s : string) : run ok s <= length s.
Proof. induction s as [|c s IH]; simpl; [lia|]. destruct (ok c); lia. Qed.

Lemma pos_advance (j : nat) : forall cur,
  j <= length (rest cur) -> pos (advance j cur) = pos cur + j.
Proof.
  induction j as [|j IH]; intros [p pv s] H; cbn [advance rest pos] in *; [lia|].
  destruct s as [|c s]; [simpl in H; lia|].
  rewrite IH by (simpl in *; lia). cbn [pos]. lia.
Qed.

Lemma rest_advance (j : nat) : forall cur,
  rest (advance j cur) = drop j (rest cur).
Proof.
  induction j as [|j IH]; intros [p pv s]; cbn [advance rest drop]; [reflexivity|].
  destruct s as [|c s]; [reflexivity|]. now rewrite IH.
Qed.

Lemma length_drop (j : nat) (s : string) : length (drop j s) = length s - j.
Proof.
  revert s; induction j as [|j IH]; intros [|c s]; simpl; trivial.
Qed.

Lemma collapse_go_skip (s : string) :
  collapse_go true s = collapse_go false (drop (run is_blank s) s).
Proof.
  induction s as [|c s IH]; [reflexivity|].
  cbn [collapse_go run]. destruct (is_blank c) eqn:Hc.
  - exact IH.
  - cbn [drop collapse_go]. now rewrite Hc.
Qed.

Lemma collapse_go_idem (s : string) :
  collapse_go false (collapse_go false s) = collapse_go false s /\
  collapse_go true (collapse_go true s) = collapse_go true s /\
  collapse_go false (collapse_go true s) = collapse_go true s.
Proof.
  induction s as [|c s (IH1 & IH2 & IH3)]; [now repeat split|].
  cbn [collapse_go]. destruct (is_blank c) eqn:Hc.
  - repeat split; trivial.
    cbn [collapse_go]. change (is_blank " ") with true. cbv iota.
    now rewrite IH2.
  - cbn [collapse_go]. rewrite Hc, IH1. now repeat split.
Qed.

Lemma collapse_idem (s : string) : collapse (collapse s) = collapse s.
Proof. apply collapse_go_idem. Qed.

Lemma count_collapse_go (c : ascii) (b : bool) (s : string) :
  is_blank c = false -> count c (collapse_go b s) = count c s.
Proof.
  intros Hc. revert b; induction s as [|a s IH]; intros b; [reflexivity|].
  cbn [collapse_go count]. destruct (is_blank a) eqn:Ha.
  - assert (E : Ascii.eqb a c = false).
    { apply Ascii.eqb_neq. intros ->. congruence. }
    rewrite E. destruct b; cbn [count]; rewrite IH; trivial.
    replace (Ascii.eqb " " c) with false; trivial.
    symmetry. apply Ascii.eqb_neq. intros <-. discriminate Hc.
  - cbn [count]. now rewrite IH.
Qed.

Lemma count_tab_collapse_go (b : bool) (s : string) :
  count tab (collapse_go b s) = 0.
Proof.
  revert b; induction s as [|a s IH]; intros b; [reflexivity|].
  cbn [collapse_go]. destruct (is_blank a) eqn:Ha.
  - destruct b; cbn [count]; rewrite IH; reflexivity.
  - cbn [count]. rewrite IH.
    replace (Ascii.eqb a tab) with false; trivial.
    symmetry. apply Ascii.eqb_neq. intros ->. discriminate Ha.
Qed.

Lemma adjacent_collapse_go (s : string) :
  starts_blank (collapse_go true s) = false /\
  adjacent_blanks (collapse_go true s) = false /\
  adjacent_blanks (collapse_go false s) = false.
Proof.
  induction s as [|c s (IH1 & IH2 & IH3)]; [now repeat split|].
  cbn [collapse_go]. destruct (is_blank c) eqn:Hc.
  - repeat split; trivial.
    cbn [adjacent_blanks]. now rewrite IH1, IH2, andb_false_r.
  - cbn [adjacent_blanks starts_blank]. now rewrite Hc, IH3.
Qed.

Lemma adjacent_blanks_false (s : string) :
  adjacent_blanks s = false -> sin_blancos_seguidos s.
Proof.
  intros H pre. revert s H; induction pre as [|x pre IH]; intros s H a b post E.
  - rewrite E in H. cbn in H. apply orb_false_iff in H as [H _]. exact H.
  - rewrite E in H. cbn [append adjacent_blanks] in H.
    apply orb_false_iff in H as [_ H]. now apply (IH _ H a b post).
Qed.

(** ** [re.sub] of the runs of blanks is [collapse] *)

Lemma search_at_start f r s : forall p pv m,
  search_at f r p pv s = Some m -> p <= m_start m.
Proof.
  induction s as [|c s IH]; intros p pv m; cbn [search_at];
    destruct (mt f r _ [] accept) as [[cur' cs]|].
  - intros [= <-]. cbn. lia.
  - discriminate.
  - intros [= <-]. cbn. lia.
  - intros H. apply IH in H. lia.
Qed.

Lemma search_at_blancos_head (p : nat) (pv : option ascii) (c : ascii) (s : string) :
  search_at no_flags blancos p pv (String c s) =
  if is_blank c
  then let cur := Cursor p pv (String c s) in
       let cur' := advance (S (run is_blank s)) cur in
       Some (Match p (pos cur') [] cur')
  else search_at no_flags blancos (S p) (Some c) s.
Proof.
  unfold blancos, plus, set. cbn [search_at]. rewrite mt_rep_cls.
  rewrite (run_ext _ is_blank) by apply blancos_class.
  cbn [rest run]. destruct (is_blank c); reflexivity.
Qed.

Lemma search_at_blancos_nil (p : nat) (pv : option ascii) :
  search_at no_flags blancos p pv "" = None.
Proof. reflexivity. Qed.

Lemma search_at_blancos_end (s : string) : forall p pv m,
  search_at no_flags blancos p pv s = Some m -> m_start m < m_end m.
Proof.
  induction s as [|c s IH]; intros p pv m; [discriminate|].
  rewrite search_at_blancos_head. destruct (is_blank c).
  - intros [= <-]. cbn [m_start m_end].
    rewrite pos_advance; cbn [pos rest length]; [lia|].
    pose proof (run_le is_blank s). lia.
  - apply IH.
Qed.

Lemma sub_go_shift (t : list tpl_item) (ms : list match_obj) (p : nat)
  (c : ascii) (s : string) :
  match ms with
  | [] => True
  | m :: _ => S p <= m_start m /\ S p <= m_end m
  end ->
  sub_go t ms p (String c s) = String c (sub_go t ms (S p) s).
Proof.
  destruct ms as [|m ms]; [reflexivity|]. intros [H1 H2]. cbn [sub_go].
  replace (m_start m - p) with (S (m_start m - S p)) by lia.
  replace (m_end m - p) with (S (m_end m - S p)) by lia.
  reflexivity.
Qed.

Lemma finditer_go_blancos_head (fuel : nat) (cur : cursor) :
  match finditer_go fuel no_flags blancos cur with
  | [] => True
  | m :: _ => pos cur <= m_start m /\ pos cur <= m_end m
  end.
Proof.
  destruct fuel as [|fuel]; cbn [finditer_go]; [exact Logic.I|].
  destruct (search_at no_flags blancos (pos cur) (prev cur) (rest cur)) as [m|] eqn:E;
    [|exact Logic.I].
  pose proof (search_at_start _ _ _ _ _ _ E).
  pose proof (search_at_blancos_end _ _ _ _ E). lia.
Qed.

Lemma sub_go_blancos (fuel : nat) : forall cur,
  length (rest cur) < fuel ->
  sub_go [TLit " "] (finditer_go fuel no_flags blancos cur) (pos cur) (rest cur)
  = collapse (rest cur).
Proof.
  unfold collapse.
  induction fuel as [|fuel IHf]; [lia|].
  intros [p pv s]. cbn [rest pos]. revert p pv.
  induction s as [|c s IHs]; intros p pv Hlen; [reflexivity|].
  cbn [finditer_go pos prev rest]. rewrite search_at_blancos_head.
  cbn [collapse_go]. destruct (is_blank c) eqn:Hc.
  - cbv zeta. cbn [m_start m_end m_after].
    set (cur' := advance (S (run is_blank s)) (Cursor p pv (String c s))).
    assert (Hpos : pos cur' = p + S (run is_blank s)).
    { unfold cur'. rewrite pos_advance; cbn [pos rest length]; trivial.
      pose proof (run_le is_blank s). lia. }
    assert (Hrest : rest cur' = drop (run is_blank s) s).
    { unfold cur'. now rewrite rest_advance. }
    replace (p <? pos cur') with true by (symmetry; apply Nat.ltb_lt; lia).
    cbn [sub_go m_start m_end expand group].
    rewrite Nat.sub_diag. cbn [take append].
    f_equal. rewrite collapse_go_skip, <- Hrest.
    replace (drop (pos cur' - p) (String c s)) with (rest cur').
    2:{ rewrite Hrest, Hpos.
        replace (p + S (run is_blank s) - p) with (S (run is_blank s)) by lia.
        reflexivity. }
    apply IHf. rewrite Hrest, length_drop. simpl in Hlen. lia.
  - specialize (IHs (S p) (Some c)).
    cbn [finditer_go pos prev rest] in IHs.
    pose proof (finditer_go_blancos_head (S fuel) (Cursor (S p) (Some c) s)) as Hh.
    cbn [finditer_go pos prev rest] in Hh.
    rewrite sub_go_shift.
    + f_equal. apply IHs. simpl in Hlen. lia.
    + destruct (search_at no_flags blancos (S p) (Some c) s); exact Hh.
Qed.

Lemma sub_blancos (s : string) : sub no_flags blancos [TLit " "] s = collapse s.
Proof.
  unfold sub, finditer. apply (sub_go_blancos (S (length s)) (start_of s)).
  cbn. lia.
Qed.


(** ** The text normaliser *)

Lemma normalizar_ocr_eq (x : string) :
  normalizar_ocr x = collapse (map_str (swap_char cr lf) (reemplazos x)).
Proof.
  unfold normalizar_ocr. now rewrite sub_blancos, replace_chr.
Qed.

Lemma count_fold_replace (c : ascii) (l : list (string * string)) :
  Forall (fun ab => fst ab <> "" /\ count c (fst ab) = count c (snd ab)) l ->
  forall x,
    count c (fold_left (fun t ab => replace (fst ab) (snd ab) t) l x) = count c x.
Proof.
  induction 1 as [|[a b] l [Hne Hc] _ IH]; intros x; cbn [fold_left]; [reflexivity|].
  rewrite IH. now apply count_replace.
Qed.

Lemma count_reemplazos (c : ascii) (x : string) :
  c = cr \/ c = lf -> count c (reemplazos x) = count c x.
Proof.
  intros H. apply count_fold_replace.
  destruct H as [-> | ->]; repeat constructor; cbn; discriminate.
Qed.

Lemma fold_replace_fixed (l : list (string * string)) (y : string) :
  Forall (fun ab => fst ab <> "" /\ (fst ab = snd ab \/ ~ occurs (fst ab) y)) l ->
  fold_left (fun t ab => replace (fst ab) (snd ab) t) l y = y.
Proof.
  induction 1 as [|[a b] l [Hne Hc] _ IH]; cbn [fold_left fst snd] in *; [reflexivity|].
  destruct Hc as [<- | Hc].
  - now rewrite replace_same.
  - now rewrite replace_absent.
Qed.

Lemma count_swap_cr (w : string) :
  count cr (map_str (swap_char cr lf) w) = 0 /\
  count lf (map_str (swap_char cr lf) w) = count lf w + count cr w.
Proof.
  induction w as [|a w [IH1 IH2]]; [now split|].
  cbn [map_str count]. rewrite IH1, IH2. unfold swap_char.
  destruct (Ascii.eqb_spec cr a) as [<-|n1].
  - cbn. split; lia.
  - destruct (Ascii.eqb_spec a cr) as [->|_]; [now elim n1|].
    destruct (Ascii.eqb a lf); split; lia.
Qed.

Lemma map_swap_fixed (a b : ascii) (y : string) :
  count a y = 0 -> map_str (swap_char a b) y = y.
Proof.
  induction y as [|c y IH]; [reflexivity|]. cbn [count map_str]. intros H.
  destruct (Ascii.eqb c a) eqn:E; [discriminate|].
  rewrite IH by exact H. f_equal.
  unfold swap_char. now rewrite Ascii.eqb_sym, E.
Qed.

Lemma normalizar_ocr_forma (x : string) :
  count tab (normalizar_ocr x) = 0 /\
  sin_blancos_seguidos (normalizar_ocr x) /\
  count cr (normalizar_ocr x) = 0 /\
  count lf (normalizar_ocr x) = count lf x + count cr x.
Proof.
  rewrite normalizar_ocr_eq. unfold collapse. repeat split.
  - apply count_tab_collapse_go.
  - apply adjacent_blanks_false, adjacent_collapse_go.
  - rewrite count_collapse_go by reflexivity. apply count_swap_cr.
  - rewrite count_collapse_go by reflexivity.
    rewrite (proj2 (count_swap_cr _)).
    now rewrite !count_reemplazos by auto.
Qed.

Lemma normalizar_ocr_fijo (y : string) :
  (forall k, In k claves -> ~ occurs k y) ->
  count cr y = 0 -> collapse y = y ->
  normalizar_ocr y = y.
Proof.
  intros Hk Hcr Hcol. rewrite normalizar_ocr_eq.
  unfold reemplazos. rewrite fold_replace_fixed.
  - now rewrite map_swap_fixed.
  - unfold rep.
    repeat (apply Forall_cons; [split; [discriminate|cbn [fst snd]]|]);
      try apply Forall_nil;
      first [left; reflexivity | right; apply Hk; cbn; tauto].
Qed.

(** C5 (as amended): the normaliser is idempotent on every text whose
    normalised form contains none of the OCR confusions that [rep]
    rewrites ("D0B", "D0 B", "D.O.B", "D 0 B", " O/"): a second call then
    returns the result of the first. *)
Theorem normalizar_ocr_idempotente_sin_claves (x : string) :
  (forall k, In k claves -> ~ occurs k (normalizar_ocr x)) ->
  normalizar_ocr (normalizar_ocr x) = normalizar_ocr x.
Proof.
  intros Hk. apply normalizar_ocr_fijo; trivial.
  - apply normalizar_ocr_forma.
  - rewrite normalizar_ocr_eq. apply collapse_idem.
Qed.

(** A text with a confusion, a double space, a tab and a CR, normalised
    once and for all by the first call. *)
Lemma normalizar_ocr_idempotente_dob_sucio :
  (forall k, In k claves -> ~ occurs k (normalizar_ocr texto_dob_sucio)) /\
  normalizar_ocr texto_dob_sucio = "Patient DOB: 03/04/1980" ++ nl /\
  normalizar_ocr (normalizar_ocr texto_dob_sucio) = normalizar_ocr texto_dob_sucio.
Proof.
  assert (Hk : forall k, In k claves -> ~ occurs k (normalizar_ocr texto_dob_sucio)).
  { intros k Hin. apply contains_false_iff.
    cbn in Hin. decompose [or] Hin; subst; try contradiction;
      vm_compute; reflexivity. }
  split; [exact Hk|]. split; [vm_compute; reflexivity|].
  exact (normalizar_ocr_idempotente_sin_claves texto_dob_sucio Hk).
Defined.

(** C5 as stated fails: collapsing the double space of "D  0 B" produces
    the confusion "D 0 B", which only a second call rewrites. *)
Lemma normalizar_ocr_no_idempotente :
  normalizar_ocr "D  0 B" = "D 0 B" /\
  normalizar_ocr (normalizar_ocr "D  0 B") = "DOB" /\
  normalizar_ocr (normalizar_ocr "D  0 B") <> normalizar_ocr "D  0 B".
Proof. repeat split; vm_compute; (reflexivity || discriminate). Qed.

(** C6 (as amended): the output of the normaliser has no tab and no two
    neighbouring spaces, so no run of spaces and tabs longer than one
    space; it has no CR, and each LF and each CR of the input is one LF of
    the output (a CR LF pair gives two). *)
Theorem normalizar_ocr_blancos_y_saltos (x : string) :
  count tab (normalizar_ocr x) = 0 /\
  sin_blancos_seguidos (normalizar_ocr x) /\
  count cr (normalizar_ocr x) = 0 /\
  count lf (normalizar_ocr x) = count lf x + count cr x.
Proof. apply normalizar_ocr_forma. Qed.

(** C6 as stated fails: the single CR LF line break of the input comes out
    as two LF. *)
Lemma normalizar_ocr_crlf :
  line_breaks texto_crlf = 1 /\
  normalizar_ocr texto_crlf = "a" ++ nl ++ nl ++ "b" /\
  count lf (normalizar_ocr texto_crlf) <> line_breaks texto_crlf.
Proof. repeat split; vm_compute; (reflexivity || discriminate). Qed.

(** ** The window before a position *)

Lemma take_drop (n : nat) (s : string) : take n s ++ drop n s = s.
Proof.
  revert s; induction n as [|n IH]; intros [|c s]; cbn; trivial.
  now rewrite IH.
Qed.

Lemma drop_drop (n m : nat) (s : string) : drop n (drop m s) = drop (m + n) s.
Proof.
  revert s; induction m as [|m IH]; intros s; [reflexivity|].
  destruct s as [|c s]; cbn [drop Nat.add]; [now destruct n|apply IH].
Qed.

Lemma length_take (n : nat) (s : string) : length (take n s) = Nat.min n (length s).
Proof.
  revert s; induction n as [|n IH]; intros [|c s]; cbn; trivial.
  now rewrite IH.
Qed.

(** X1: the window that ventana_previa returns has at most [ancho]
    characters and at most [pos], and it is the text that ends at [pos]: the
    text is what comes before the window, the window, and what starts at
    [pos]. *)
Theorem ventana_previa_es_lo_anterior (texto : string) (pos ancho : nat) :
  length (ventana_previa texto pos ancho) <= ancho /\
  length (ventana_previa texto pos ancho) <= pos /\
  take (pos - ancho) texto ++ ventana_previa texto pos ancho ++ drop pos texto
  = texto.
Proof.
  unfold ventana_previa, slice. rewrite length_take, length_drop.
  repeat split; try lia.
  rewrite <- (take_drop (pos - ancho) texto) at 4. f_equal.
  replace (drop pos texto)
    with (drop (pos - (pos - ancho)) (drop (pos - ancho) texto)).
  - apply take_drop.
  - rewrite drop_drop. f_equal. lia.
Qed.

(** ** The validator and the case of the letters *)

Lemma upper_char_idem (c : ascii) : upper_char (upper_char c) = upper_char c.
Proof.
  revert c. apply ascii_cases. intros n Hn.
  do 256 (destruct n as [|n]; [reflexivity|]). lia.
Qed.

Lemma upper_lower_char (c : ascii) : upper_char (lower_char c) = upper_char c.
Proof.
  revert c. apply ascii_cases. intros n Hn.
  do 256 (destruct n as [|n]; [reflexivity|]). lia.
Qed.

Lemma map_str_map_str (f g : ascii -> ascii) (s : string) :
  map_str f (map_str g s) = map_str (fun c => f (g c)) s.
Proof. induction s; cbn; congruence. Qed.

Lemma map_str_ext (f g : ascii -> ascii) (s : string) :
  (forall c, f c = g c) -> map_str f s = map_str g s.
Proof. intros H; induction s; cbn; rewrite ?H; congruence. Qed.

Lemma upper_idem (s : string) : upper (upper s) = upper s.
Proof.
  unfold upper. rewrite map_str_map_str. apply map_str_ext, upper_char_idem.
Qed.

Lemma upper_lower (s : string) : upper (lower s) = upper s.
Proof.
  unfold upper, lower. rewrite map_str_map_str. apply map_str_ext, upper_lower_char.
Qed.

(** X2: the validator does not depend on the case of the letters: a name,
    its upper-case form and its lower-case form get the same answer. *)
Theorem es_nombre_valido_sin_caja (nombre : string) :
  es_nombre_valido (upper nombre) = es_nombre_valido nombre /\
  es_nombre_valido (lower nombre) = es_nombre_valido nombre.
Proof.
  unfold es_nombre_valido. now rewrite upper_idem, upper_lower.
Qed.

(** ** The order of the strategies *)

(** X3: the orchestrator returns the pair of the first strategy that
    yields one, in the order line, proximity, last resort: the truth tests
    on the name and the date never discard a pair that a strategy found. *)
Theorem extraer_primera_estrategia
  (dtparse : string -> option datetime) (texto : string) :
  extraer_nombre_dob dtparse texto =
  match buscar_por_linea dtparse texto with
  | (Some nombre, Some dob) => (Some nombre, Some dob)
  | _ =>
      match buscar_por_proximidad dtparse texto with
      | (Some nombre, Some dob) => (Some nombre, Some dob)
      | _ => ultimo_recurso dtparse texto
      end
  end.
Proof.
  unfold extraer_nombre_dob, buscar_por_linea, buscar_por_proximidad.
  destruct (linea_regexes_ok dtparse NAME_DOB_REGEXES texto) as [E|E].
  - rewrite E. cbn [truthy_opt andb].
    destruct (proximidad_regexes_ok dtparse DOB_REGEXES texto) as [E'|E'].
    + now rewrite E'.
    + destruct (proximidad_regexes dtparse DOB_REGEXES texto) as [on od].
      rewrite (completo_truthy _ _ _ E').
      now destruct E' as (n & d & [= -> ->] & _).
  - destruct (linea_regexes dtparse NAME_DOB_REGEXES texto) as [on od].
    rewrite (completo_truthy _ _ _ E).
    now destruct E as (n & d & [= -> ->] & _).
Qed.

(** ** The form of a normalised date *)

Lemma str_go_nonempty (fuel n : nat) (acc : string) : str_go (S fuel) n acc <> "".
Proof.
  revert n acc; induction fuel as [|fuel IH]; intros n acc; cbn [str_go].
  - now destruct (n <? 10).
  - destruct (n <? 10); [discriminate|]. apply IH.
Qed.

Lemma str_nonempty (n : nat) : str n <> "".
Proof. apply str_go_nonempty. Qed.

(** X4: whenever the date normaliser returns, its output is a month and a
    day printed on at least two digits and a year that is not empty, joined
    by hyphens. *)
Theorem normalizar_fecha_forma
  (dtparse : string -> option datetime) (fecha_str salida : string) :
  normalizar_fecha dtparse fecha_str = Some salida ->
  exists (mes dia : nat) (anio : string),
    salida = pad2 mes ++ "-" ++ pad2 dia ++ "-" ++ anio /\ anio <> "".
Proof.
  unfold normalizar_fecha.
  set (u := replace "-" "/" _).
  assert (F : forall m,
            exists (mes dia : nat) (anio : string),
              pad2 (int (group m 1)) ++ "-" ++ pad2 (int (group m 2)) ++ "-" ++
                (if length (group m 3) =? 4 then group m 3
                 else "20" ++ zfill 2 (group m 3))
              = pad2 mes ++ "-" ++ pad2 dia ++ "-" ++ anio /\ anio <> "").
  { intros m. eexists _, _, _. split; [reflexivity|].
    destruct (length (group m 3) =? 4) eqn:E; [|discriminate].
    apply Nat.eqb_eq in E. now destruct (group m 3). }
  destruct (dtparse u) as [dt|].
  - destruct (_ || _).
    + destruct (search _ _ u) as [m|]; [|discriminate].
      intros [= <-]. apply F.
    + intros [= <-]. exists (month dt), (day dt), (str (year dt)).
      split; [reflexivity|apply str_nonempty].
  - destruct (search _ _ u) as [m|]; [|discriminate].
    intros [= <-]. apply F.
Qed.

Lemma normalizar_fecha_forma_ejemplo :
  normalizar_fecha parse "03/04/1980" = Some "03-04-1980" /\
  exists (mes dia : nat) (anio : string),
    "03-04-1980" = pad2 mes ++ "-" ++ pad2 dia ++ "-" ++ anio /\ anio <> "".
Proof.
  assert (E : normalizar_fecha parse "03/04/1980" = Some "03-04-1980")
    by (vm_compute; reflexivity).
  split; [exact E|].
  exact (normalizar_fecha_forma parse "03/04/1980" "03-04-1980" E).
Defined.

(** ** Separators of a date *)

Lemma lstrip_map (h : ascii -> ascii) (s : string) :
  (forall c, is_space (h c) = is_space c) ->
  lstrip (map_str h s) = map_str h (lstrip s).
Proof.
  intros H; induction s as [|c s IH]; [reflexivity|].
  cbn [map_str lstrip]. rewrite H. now destruct (is_space c).
Qed.

Lemma rstrip_map (h : ascii -> ascii) (s : string) :
  (forall c, is_space (h c) = is_space c) ->
  rstrip (map_str h s) = map_str h (rstrip s).
Proof.
  intros H; induction s as [|c s IH]; [reflexivity|].
  cbn [map_str rstrip]. rewrite IH, H.
  destruct (rstrip s); cbn [map_str]; [now destruct (is_space c)|reflexivity].
Qed.

Lemma strip_map (h : ascii -> ascii) (s : string) :
  (forall c, is_space (h c) = is_space c) ->
  strip (map_str h s) = map_str h (strip s).
Proof.
  intros H. unfold strip. now rewrite lstrip_map, rstrip_map.
Qed.

Lemma unificar_eq (s : string) :
  replace "-" "/" (replace "." "/" (replace "\" "/" s))
  = map_str (fun c => swap_char "-" "/" (swap_char "." "/" (swap_char "\" "/" c))) s.
Proof.
  change "-" with (chr "-"). change "." with (chr "."). change "\" with (chr "\").
  change "/" with (chr "/").
  now rewrite !replace_chr, !map_str_map_str.
Qed.

Lemma swap_space (a : ascii) (c : ascii) :
  is_space a = false -> is_space (swap_char a "/" c) = is_space c.
Proof.
  intros Ha. unfold swap_char. destruct (Ascii.eqb_spec a c) as [<-|]; [|reflexivity].
  now rewrite Ha.
Qed.

Lemma normalizar_fecha_swap
  (dtparse : string -> option datetime) (a : ascii) (s : string) :
  a = "-"%char \/ a = "."%char \/ a = "\"%char ->
  normalizar_fecha dtparse (replace (chr a) "/" s) = normalizar_fecha dtparse s.
Proof.
  intros Ha.
  assert (Hsp : is_space a = false) by (destruct Ha as [->|[->| ->]]; reflexivity).
  assert (E : replace (chr a) "/" s = map_str (swap_char a "/") s)
    by apply replace_chr.
  unfold normalizar_fecha. rewrite E.
  rewrite strip_map by (intro; now apply swap_space).
  rewrite !unificar_eq, map_str_map_str.
  replace (map_str _ (strip s))
    with (map_str (fun c => swap_char "-" "/" (swap_char "." "/" (swap_char "\" "/" c)))
            (strip s)); [reflexivity|].
  apply map_str_ext. intros c.
  destruct (Ascii.eqb_spec a c) as [<-|ne].
  - destruct Ha as [->|[->| ->]]; reflexivity.
  - replace (swap_char a "/" c) with c; [reflexivity|].
    unfold swap_char. now rewrite (proj2 (Ascii.eqb_neq a c) ne).
Qed.

(** X5: a date written with hyphens, dots or backslashes is normalised
    exactly as the same text with these separators turned into slashes. *)
Theorem normalizar_fecha_separadores
  (dtparse : string -> option datetime) (fecha_str : string) :
  normalizar_fecha dtparse (replace "-" "/" fecha_str) = normalizar_fecha dtparse fecha_str /\
  normalizar_fecha dtparse (replace "." "/" fecha_str) = normalizar_fecha dtparse fecha_str /\
  normalizar_fecha dtparse (replace "\" "/" fecha_str) = normalizar_fecha dtparse fecha_str.
Proof.
  repeat split.
  - apply (normalizar_fecha_swap dtparse "-"). tauto.
  - apply (normalizar_fecha_swap dtparse "."). tauto.
  - apply (normalizar_fecha_swap dtparse "\"). tauto.
Qed.

(** ** Length and fixed points of the text normaliser *)

Lemma length_replace_le (old new s : string) :
  old <> "" -> length new <= length old ->
  length (replace old new s) <= length s.
Proof.
  intros Hne Hl.
  apply (replace_ind old new (fun s r => length r <= length s) Hne).
  - cbn; lia.
  - intros post r H. rewrite !length_app. lia.
  - intros c t r _ H. cbn. lia.
Qed.

Lemma length_fold_replace_le (l : list (string * string)) :
  Forall (fun ab => fst ab <> "" /\ length (snd ab) <= length (fst ab)) l ->
  forall x,
    length (fold_left (fun t ab => replace (fst ab) (snd ab) t) l x) <= length x.
Proof.
  induction 1 as [|[a b] l [Hne Hl] _ IH]; intros x; cbn [fold_left]; [lia|].
  etransitivity; [apply IH|]. now apply length_replace_le.
Qed.

Lemma length_collapse_go (b : bool) (s : string) :
  length (collapse_go b s) <= length s.
Proof.
  revert b; induction s as [|c s IH]; intros b; cbn [collapse_go]; [cbn; lia|].
  destruct (is_blank c); [destruct b|]; cbn [length];
    repeat match goal with |- context [collapse_go ?b s] =>
      pose proof (IH b); generalize dependent (collapse_go b s); intros end; lia.
Qed.

(** X6: the text normaliser never makes a text longer. *)
Theorem normalizar_ocr_no_alarga (texto : string) :
  length (normalizar_ocr texto) <= length texto.
Proof.
  rewrite normalizar_ocr_eq. unfold collapse.
  etransitivity; [apply length_collapse_go|].
  rewrite length_map_str. unfold reemplazos.
  apply length_fold_replace_le.
  unfold rep. repeat (apply Forall_cons; [split; [discriminate|cbn; lia]|]).
  apply Forall_nil.
Qed.

Lemma sin_blancos_adjacent (s : string) :
  sin_blancos_seguidos s -> adjacent_blanks s = false.
Proof.
  induction s as [|a t IH]; intros H; [reflexivity|].
  cbn [adjacent_blanks]. apply orb_false_iff. split.
  - destruct t as [|b post]; cbn [starts_blank]; [apply andb_false_r|].
    now apply (H "" a b post).
  - apply IH. intros pre x y post E. apply (H (String a pre) x y post).
    cbn. now rewrite E.
Qed.

Lemma blank_no_tab (c : ascii) (s : string) :
  is_blank c = true -> count tab (String c s) = 0 -> c = " "%char.
Proof.
  unfold is_blank. cbn [count].
  destruct (Ascii.eqb_spec " " c) as [<-|]; [reflexivity|].
  cbn [orb]. rewrite Ascii.eqb_sym. destruct (Ascii.eqb c tab); discriminate.
Qed.

Lemma collapse_go_fixed (s : string) :
  count tab s = 0 -> adjacent_blanks s = false ->
  collapse_go false s = s /\ (starts_blank s = false -> collapse_go true s = s).
Proof.
  induction s as [|c s IH]; intros Ht Ha; [now split|].
  cbn [adjacent_blanks] in Ha. apply orb_false_iff in Ha as [Hc Ha].
  assert (Ht' : count tab s = 0) by (cbn [count] in Ht; lia).
  destruct (IH Ht' Ha) as [IH1 IH2].
  cbn [collapse_go starts_blank]. destruct (is_blank c) eqn:Hb.
  - rewrite (blank_no_tab c s Hb Ht) in *. cbn [andb] in Hc.
    split; [|discriminate]. now rewrite IH2.
  - split; intros; now rewrite IH1.
Qed.

(** X7: a text without any of the OCR confusions, without CR, without tab
    and without two neighbouring spaces is returned unchanged. *)
Theorem normalizar_ocr_texto_limpio (texto : string) :
  (forall k, In k claves -> ~ occurs k texto) ->
  count cr texto = 0 -> count tab texto = 0 -> sin_blancos_seguidos texto ->
  normalizar_ocr texto = texto.
Proof.
  intros Hk Hcr Htab Hsp. apply normalizar_ocr_fijo; trivial.
  apply collapse_go_fixed; trivial. now apply sin_blancos_adjacent.
Qed.

Lemma normalizar_ocr_texto_limpio_ejemplo :
  (forall k, In k claves -> ~ occurs k ("Patient DOB: 03/04/1980" ++ nl)) /\
  count cr ("Patient DOB: 03/04/1980" ++ nl) = 0 /\
  count tab ("Patient DOB: 03/04/1980" ++ nl) = 0 /\
  sin_blancos_seguidos ("Patient DOB: 03/04/1980" ++ nl) /\
  normalizar_ocr ("Patient DOB: 03/04/1980" ++ nl) = "Patient DOB: 03/04/1980" ++ nl.
Proof.
  assert (Hk : forall k, In k claves -> ~ occurs k ("Patient DOB: 03/04/1980" ++ nl)).
  { intros k Hin. apply contains_false_iff.
    cbn in Hin. decompose [or] Hin; subst; try contradiction;
      vm_compute; reflexivity. }
  assert (Hs : sin_blancos_seguidos ("Patient DOB: 03/04/1980" ++ nl))
    by (apply adjacent_blanks_false; vm_compute; reflexivity).
  split; [exact Hk|]. split; [reflexivity|]. split; [reflexivity|].
  split; [exact Hs|].
  exact (normalizar_ocr_texto_limpio _ Hk eq_refl eq_refl Hs).
Defined.

(** ** Patterns that cannot match *)

Section Blocked.

Variable f : flags.
Variable Q : string -> Prop.
Hypothesis Q_tail : forall c s, Q (String c s) -> Q s.

Lemma step_Q (ok : ascii -> bool) (cur cur' : cursor) :
  step ok cur = Some cur' -> Q (rest cur) -> Q (rest cur').
Proof.
  unfold step. destruct cur as [p pv [|c s]]; cbn [rest]; [discriminate|].
  destruct (ok c); [|discriminate]. intros [= <-]. apply Q_tail.
Qed.

Lemma rep_loop_passes (body : cursor -> caps -> cont -> result)
  (greedy : bool) (lo : nat) (hi : option nat) (k : cont) :
  (forall cur cs k', (forall cur' cs', Q (rest cur') -> k' cur' cs' = None) ->
                     Q (rest cur) -> body cur cs k' = None) ->
  (forall cur' cs', Q (rest cur') -> k cur' cs' = None) ->
  forall fuel n cur cs,
    Q (rest cur) -> rep_loop body greedy lo hi k fuel n cur cs = None.
Proof.
  intros Hbody Hk. induction fuel as [|fuel IH]; intros n cur cs HQ;
    rewrite rep_loop_eq; cbv zeta.
  - rewrite (Hk _ _ HQ). now destruct greedy, (lo <=? n).
  - rewrite (Hk _ _ HQ).
    assert (E : body cur cs
                  (fun cur' cs' =>
                     if pos cur <? pos cur'
                     then rep_loop body greedy lo hi k fuel (S n) cur' cs'
                     else None) = None).
    { apply Hbody; trivial. intros cur' cs' HQ'.
      destruct (pos cur <? pos cur'); [now apply IH|reflexivity]. }
    rewrite E. now destruct greedy, (lo <=? n), (within hi n).
Qed.

(** A continuation that fails on the texts of [Q] makes every pattern
    fail on them. *)
Lemma mt_passes (r : regex) : forall cur cs k,
  (forall cur' cs', Q (rest cur') -> k cur' cs' = None) ->
  Q (rest cur) -> mt f r cur cs k = None.
Proof.
  induction r as [| a | | neg items | | | | r1 IH1 r2 IH2 | r1 IH1 r2 IH2
                 | greedy lo hi r1 IH1 | i r1 IH1];
    intros cur cs k Hk HQ; cbn [mt].
  - now apply Hk.
  - destruct (step _ cur) as [cur'|] eqn:E; [|reflexivity].
    apply Hk. eapply step_Q; eassumption.
  - destruct (step _ cur) as [cur'|] eqn:E; [|reflexivity].
    apply Hk. eapply step_Q; eassumption.
  - destruct (step _ cur) as [cur'|] eqn:E; [|reflexivity].
    apply Hk. eapply step_Q; eassumption.
  - destruct (at_word_boundary cur); [now apply Hk|reflexivity].
  - destruct (at_bol f cur); [now apply Hk|reflexivity].
  - destruct (at_eol f cur); [now apply Hk|reflexivity].
  - apply IH1; trivial. intros cur' cs' HQ'. now apply IH2.
  - rewrite IH1 by trivial. cbn. now apply IH2.
  - apply rep_loop_passes; trivial.
  - apply IH1; trivial. intros cur' cs' HQ'. now apply Hk.
Qed.

Lemma blocked_seq_l (r1 r2 : regex) : blocked f Q r1 -> blocked f Q (Seq r1 r2).
Proof. intros H cur cs k HQ. cbn [mt]. now apply H. Qed.

Lemma blocked_seq_r (r1 r2 : regex) : blocked f Q r2 -> blocked f Q (Seq r1 r2).
Proof.
  intros H cur cs k HQ. cbn [mt]. apply mt_passes; trivial.
  intros cur' cs' HQ'. now apply H.
Qed.

Lemma blocked_alt (r1 r2 : regex) :
  blocked f Q r1 -> blocked f Q r2 -> blocked f Q (Alt r1 r2).
Proof.
  intros H1 H2 cur cs k HQ. cbn [mt]. rewrite H1 by trivial. cbn. now apply H2.
Qed.

Lemma blocked_grp (i : nat) (r : regex) : blocked f Q r -> blocked f Q (Grp i r).
Proof. intros H cur cs k HQ. cbn [mt]. now apply H. Qed.

Lemma blocked_rep (greedy : bool) (lo : nat) (hi : option nat) (r : regex) :
  1 <= lo -> blocked f Q r -> blocked f Q (Rep greedy lo hi r).
Proof.
  intros Hlo H cur cs k HQ. cbn [mt]. rewrite rep_loop_eq. cbv zeta.
  replace (lo <=? 0) with false by (symmetry; apply Nat.leb_gt; lia).
  destruct (length (rest cur)) as [|fuel].
  - now destruct greedy.
  - destruct greedy; cbn [or_else]; rewrite H by trivial;
      now destruct (within hi 0).
Qed.

Lemma blocked_search_at (r : regex) : blocked f Q r ->
  forall s p pv, Q s -> search_at f r p pv s = None.
Proof.
  intros H. induction s as [|c s IH]; intros p pv HQ; cbn [search_at];
    rewrite H by exact HQ; [reflexivity|].
  apply IH. eapply Q_tail; eassumption.
Qed.

Lemma blocked_search (r : regex) (s : string) :
  blocked f Q r -> Q s -> search f r s = None.
Proof. intros H HQ. now apply blocked_search_at. Qed.

Lemma blocked_finditer (r : regex) (s : string) :
  blocked f Q r -> Q s -> finditer f r s = [].
Proof.
  intros H HQ. unfold finditer. cbn [finditer_go start_of pos prev rest].
  now rewrite blocked_search_at.
Qed.

End Blocked.

(** Texts without a given character *)

Lemma none_of_tail (p : ascii -> bool) (c : ascii) (s : string) :
  none_of p (String c s) = true -> none_of p s = true.
Proof. cbn. now intros [_ H]%andb_true_iff. Qed.

Lemma blocked_lit (f : flags) (p : ascii -> bool) (a : ascii) :
  (forall c, lit_match f a c = true -> p c = true) ->
  blocked f (fun s => none_of p s = true) (Lit a).
Proof.
  intros Hp [q pv [|c s]] cs k HQ; cbn [mt step rest] in *; [reflexivity|].
  destruct (lit_match f a c) eqn:E; [|reflexivity].
  apply Hp in E. cbn in HQ. now rewrite E in HQ.
Qed.

Lemma none_of_take (p : ascii -> bool) (n : nat) (s : string) :
  none_of p s = true -> none_of p (take n s) = true.
Proof.
  revert s; induction n as [|n IH]; intros [|c s]; cbn; trivial.
  intros [H1 H2]%andb_true_iff. now rewrite H1, IH.
Qed.

Lemma none_of_drop (p : ascii -> bool) (n : nat) (s : string) :
  none_of p s = true -> none_of p (drop n s) = true.
Proof.
  revert s; induction n as [|n IH]; intros [|c s]; cbn [drop]; trivial.
  intros H. apply IH. eapply none_of_tail; eassumption.
Qed.

Ltac bloquear Qt base :=
  first [ exact base
        | apply blocked_grp; bloquear Qt base
        | apply blocked_rep; [lia | bloquear Qt base]
        | apply blocked_alt; [bloquear Qt base | bloquear Qt base]
        | apply blocked_seq_l; bloquear Qt base
        | apply blocked_seq_r; [exact Qt | bloquear Qt base] ].

(** ** Texts that no strategy can resolve *)

Lemma count_none_of (a : ascii) (s : string) :
  count a s = 0 -> none_of (Ascii.eqb a) s = true.
Proof.
  induction s as [|c s IH]; [reflexivity|]. cbn [count none_of].
  rewrite (Ascii.eqb_sym a c). destruct (Ascii.eqb c a); [discriminate|].
  intros H. now rewrite IH.
Qed.

Lemma lit_match_coma (f : flags) (c : ascii) :
  lit_match f "," c = true -> Ascii.eqb "," c = true.
Proof.
  unfold lit_match, ascii_eqb. destruct (ignorecase f); trivial.
  pattern c. apply ascii_cases. intros n Hn.
  do 256 (destruct n as [|n]; [vm_compute; auto|]). lia.
Qed.

Section SinResolver.

Variable dtparse : string -> option datetime.

Lemma linea_regexes_sin_match (rs : list regex) (texto : string) :
  Forall (fun r => finditer IGNORECASE_DOTALL r texto = []) rs ->
  linea_regexes dtparse rs texto = (None, None).
Proof.
  induction 1 as [|r rs E _ IH]; cbn [linea_regexes]; [reflexivity|].
  now rewrite E.
Qed.

Lemma proximidad_regexes_sin_match (rs : list regex) (texto : string) :
  Forall (fun r => finditer IGNORECASE r texto = []) rs ->
  proximidad_regexes dtparse rs texto = (None, None).
Proof.
  induction 1 as [|r rs E _ IH]; cbn [proximidad_regexes]; [reflexivity|].
  now rewrite E.
Qed.

Lemma proximidad_matches_sin_nombre (texto : string) (ms : list match_obj) :
  (forall pos,
     search IGNORECASE_MULTILINE par_final (ventana_previa texto pos 200) = None /\
     search IGNORECASE par_suelto (ventana_previa texto pos 200) = None) ->
  proximidad_matches dtparse texto ms = None.
Proof.
  intros H. induction ms as [|m ms IH]; cbn [proximidad_matches]; [reflexivity|].
  destruct (normalizar_fecha dtparse _); [|exact IH].
  cbv zeta. destruct (H (m_start m)) as [-> ->]. exact IH.
Qed.

Lemma proximidad_regexes_sin_nombre (rs : list regex) (texto : string) :
  (forall pos,
     search IGNORECASE_MULTILINE par_final (ventana_previa texto pos 200) = None /\
     search IGNORECASE par_suelto (ventana_previa texto pos 200) = None) ->
  proximidad_regexes dtparse rs texto = (None, None).
Proof.
  intros H. induction rs as [|r rs IH]; cbn [proximidad_regexes]; [reflexivity|].
  now rewrite proximidad_matches_sin_nombre.
Qed.

Lemma primer_nombre_sin_match (rs : list regex) (texto : string) :
  Forall (fun r => search IGNORECASE r texto = None) rs ->
  primer_nombre rs texto = None.
Proof.
  induction 1 as [|r rs E _ IH]; cbn [primer_nombre]; [reflexivity|].
  now rewrite E.
Qed.

Lemma primera_dob_sin_match (rs : list regex) (texto : string) :
  Forall (fun r => search IGNORECASE r texto = None) rs ->
  primera_dob dtparse rs texto = None.
Proof.
  induction 1 as [|r rs E _ IH]; cbn [primera_dob]; [reflexivity|].
  now rewrite E.
Qed.

Lemma sin_coma_sin_resultado (texto : string) :
  count "," texto = 0 -> extraer_nombre_dob dtparse texto = (None, None).
Proof.
  intros Hc. apply count_none_of in Hc.
  set (Q := fun s => none_of (Ascii.eqb ",") s = true) in *.
  assert (Qt : forall c s, Q (String c s) -> Q s)
    by (intros c s; apply none_of_tail).
  assert (B : forall f, blocked f Q (Lit ","))
    by (intros f; apply blocked_lit, lit_match_coma).
  assert (A : buscar_por_linea dtparse texto = (None, None)).
  { apply linea_regexes_sin_match. unfold NAME_DOB_REGEXES.
    repeat (apply Forall_cons; [apply (blocked_finditer _ Q Qt); trivial|]);
      try apply Forall_nil;
      cbv [seq nombre_rgx valor_dob etiqueta_dob dos_puntos id_previo];
      bloquear Qt (B IGNORECASE_DOTALL). }
  assert (P : buscar_por_proximidad dtparse texto = (None, None)).
  { apply proximidad_regexes_sin_nombre. intros pos.
    assert (Hw : Q (ventana_previa texto pos 200))
      by (apply none_of_take, none_of_drop, Hc).
    split; apply (blocked_search _ Q Qt); trivial;
      cbv [seq par_final par_suelto nombre_rgx]; bloquear Qt (B IGNORECASE_MULTILINE) ||
      bloquear Qt (B IGNORECASE). }
  assert (N : primer_nombre NAME_ONLY_REGEXES texto = None).
  { apply primer_nombre_sin_match. unfold NAME_ONLY_REGEXES.
    repeat (apply Forall_cons; [apply (blocked_search _ Q Qt); trivial|]);
      try apply Forall_nil;
      cbv [seq nombre_rgx etiqueta_dob dos_puntos id_previo];
      bloquear Qt (B IGNORECASE). }
  unfold extraer_nombre_dob. rewrite A, P. cbn [truthy_opt andb].
  unfold ultimo_recurso. rewrite N. now destruct (truthy_opt _).
Qed.

End SinResolver.

(** X8: every name pattern needs the comma of "Family, Given": a text
    without a comma is never resolved, whatever dates and labels it has. *)
Theorem sin_coma_no_resuelve
  (dtparse : string -> option datetime) (texto : string) :
  count "," texto = 0 -> extraer_nombre_dob dtparse texto = (None, None).
Proof. apply sin_coma_sin_resultado. Qed.

Lemma sin_coma_no_resuelve_ejemplo :
  count "," "Patient Name: JOHN SMITH  DOB: 03/04/1980" = 0 /\
  extraer_nombre_dob parse "Patient Name: JOHN SMITH  DOB: 03/04/1980" = (None, None).
Proof.
  split; [reflexivity|].
  exact (sin_coma_no_resuelve parse "Patient Name: JOHN SMITH  DOB: 03/04/1980" eq_refl).
Defined.

(** ** [re.sub] on one character class *)

Lemma search_at_cls_head f neg items (p : nat) (pv : option ascii)
  (c : ascii) (s : string) :
  search_at f (Cls neg items) p pv (String c s) =
  if cls_match f neg items c
  then Some (Match p (S p) [] (Cursor (S p) (Some c) s))
  else search_at f (Cls neg items) (S p) (Some c) s.
Proof.
  cbn [search_at mt step rest pos accept].
  now destruct (cls_match f neg items c).
Qed.

Lemma search_at_cls_end f neg items (s : string) : forall p pv m,
  search_at f (Cls neg items) p pv s = Some m -> m_start m < m_end m.
Proof.
  induction s as [|c s IH]; intros p pv m; [discriminate|].
  rewrite search_at_cls_head. destruct (cls_match f neg items c).
  - intros [= <-]. cbn. lia.
  - apply IH.
Qed.

Lemma finditer_go_head f r (fuel : nat) (cur : cursor) :
  (forall s p pv m, search_at f r p pv s = Some m -> m_start m < m_end m) ->
  match finditer_go fuel f r cur with
  | [] => True
  | m :: _ => pos cur <= m_start m /\ pos cur <= m_end m
  end.
Proof.
  intros Hend.
  destruct fuel as [|fuel]; cbn [finditer_go]; [exact Logic.I|].
  destruct (search_at f r (pos cur) (prev cur) (rest cur)) as [m|] eqn:E;
    [|exact Logic.I].
  pose proof (search_at_start _ _ _ _ _ _ E).
  pose proof (Hend _ _ _ _ E). lia.
Qed.

Lemma sub_go_cls f neg items (b : ascii) (fuel : nat) : forall s p pv,
  length s < fuel ->
  sub_go [TLit (chr b)] (finditer_go fuel f (Cls neg items) (Cursor p pv s)) p s
  = map_str (subst_char (cls_match f neg items) b) s.
Proof.
  induction fuel as [|fuel IHf]; [lia|].
  induction s as [|c s IHs]; intros p pv Hlen; [reflexivity|].
  cbn [finditer_go pos prev rest]. rewrite search_at_cls_head.
  cbn [map_str]. unfold subst_char at 1.
  destruct (cls_match f neg items c) eqn:Hc.
  - cbn [m_start m_end m_after].
    replace (p <? S p) with true by (symmetry; apply Nat.ltb_lt; lia).
    cbn [sub_go m_start m_end expand].
    rewrite Nat.sub_diag. replace (S p - p) with 1 by lia.
    cbn [take drop append chr]. f_equal. apply IHf. simpl in Hlen. lia.
  - specialize (IHs (S p) (Some c)).
    cbn [finditer_go pos prev rest] in IHs.
    pose proof (finditer_go_head f (Cls neg items) (S fuel)
                  (Cursor (S p) (Some c) s) (search_at_cls_end f neg items)) as Hh.
    cbn [finditer_go pos prev rest] in Hh.
    rewrite sub_go_shift.
    + f_equal. apply IHs. simpl in Hlen. lia.
    + destruct (search_at f (Cls neg items) (S p) (Some c) s); exact Hh.
Qed.

(** A class replaced by one character *)
Lemma sub_cls_chr f neg items (b : ascii) (s : string) :
  sub f (Cls neg items) [TLit (chr b)] s
  = map_str (subst_char (cls_match f neg items) b) s.
Proof. unfold sub, finditer, start_of. apply sub_go_cls. lia. Qed.

(** ** [re.sub] of the runs of a class by a space *)

Section Squeeze.

Variable f : flags.
Variable neg : bool.
Variable items : list item.

Let ok : ascii -> bool := cls_match f neg items.
Let runs : regex := Rep true 1 None (Cls neg items).

Lemma search_at_runs_head (p : nat) (pv : option ascii) (c : ascii) (s : string) :
  search_at f runs p pv (String c s) =
  if ok c
  then let cur := Cursor p pv (String c s) in
       let cur' := advance (S (run ok s)) cur in
       Some (Match p (pos cur') [] cur')
  else search_at f runs (S p) (Some c) s.
Proof.
  unfold runs, ok. cbn [search_at]. rewrite mt_rep_cls.
  cbn [rest run]. destruct (cls_match f neg items c); reflexivity.
Qed.

Lemma search_at_runs_end (s : string) : forall p pv m,
  search_at f runs p pv s = Some m -> m_start m < m_end m.
Proof.
  induction s as [|c s IH]; intros p pv m; [discriminate|].
  rewrite search_at_runs_head. destruct (ok c).
  - intros [= <-]. cbn [m_start m_end].
    rewrite pos_advance; cbn [pos rest length]; [lia|].
    pose proof (run_le ok s). lia.
  - apply IH.
Qed.

Lemma squeeze_go_skip (s : string) :
  squeeze_go ok true s = squeeze_go ok false (drop (run ok s) s).
Proof.
  induction s as [|c s IH]; [reflexivity|].
  cbn [squeeze_go run]. destruct (ok c) eqn:Hc.
  - exact IH.
  - cbn [drop squeeze_go]. now rewrite Hc.
Qed.

Lemma sub_go_runs (fuel : nat) : forall cur,
  length (rest cur) < fuel ->
  sub_go [TLit " "] (finditer_go fuel f runs cur) (pos cur) (rest cur)
  = squeeze ok (rest cur).
Proof.
  unfold squeeze.
  induction fuel as [|fuel IHf]; [lia|].
  intros [p pv s]. cbn [rest pos]. revert p pv.
  induction s as [|c s IHs]; intros p pv Hlen; [reflexivity|].
  cbn [finditer_go pos prev rest]. rewrite search_at_runs_head.
  cbn [squeeze_go]. destruct (ok c) eqn:Hc.
  - cbv zeta. cbn [m_start m_end m_after].
    set (cur' := advance (S (run ok s)) (Cursor p pv (String c s))).
    assert (Hpos : pos cur' = p + S (run ok s)).
    { unfold cur'. rewrite pos_advance; cbn [pos rest length]; trivial.
      pose proof (run_le ok s). lia. }
    assert (Hrest : rest cur' = drop (run ok s) s).
    { unfold cur'. now rewrite rest_advance. }
    replace (p <? pos cur') with true by (symmetry; apply Nat.ltb_lt; lia).
    cbn [sub_go m_start m_end expand group].
    rewrite Nat.sub_diag. cbn [take append].
    f_equal. rewrite squeeze_go_skip, <- Hrest.
    replace (drop (pos cur' - p) (String c s)) with (rest cur').
    2:{ rewrite Hrest, Hpos.
        replace (p + S (run ok s) - p) with (S (run ok s)) by lia.
        reflexivity. }
    apply IHf. rewrite Hrest, length_drop. simpl in Hlen. lia.
  - specialize (IHs (S p) (Some c)).
    cbn [finditer_go pos prev rest] in IHs.
    pose proof (finditer_go_head f runs (S fuel)
                  (Cursor (S p) (Some c) s) search_at_runs_end) as Hh.
    cbn [finditer_go pos prev rest] in Hh.
    rewrite sub_go_shift.
    + f_equal. apply IHs. simpl in Hlen. lia.
    + destruct (search_at f runs (S p) (Some c) s); exact Hh.
Qed.

Lemma sub_runs (s : string) :
  sub f (Rep true 1 None (Cls neg items)) [TLit " "] s
  = squeeze (cls_match f neg items) s.
Proof.
  unfold sub, finditer. apply (sub_go_runs (S (length s)) (start_of s)).
  cbn. lia.
Qed.

End Squeeze.

Lemma squeeze_go_ext (ok ok' : ascii -> bool) (b : bool) (s : string) :
  (forall c, ok c = ok' c) -> squeeze_go ok b s = squeeze_go ok' b s.
Proof.
  intros H. revert b; induction s as [|c s IH]; intros b; [reflexivity|].
  cbn [squeeze_go]. now rewrite H, !IH.
Qed.

(** ** Trimming *)

Lemma lstrip_fixed (s : string) : starts_space s = false -> lstrip s = s.
Proof. destruct s as [|c s]; cbn; [trivial|]. now intros ->. Qed.

Lemma starts_space_lstrip (s : string) : starts_space (lstrip s) = false.
Proof.
  induction s as [|c s IH]; [reflexivity|]. cbn [lstrip].
  destruct (is_space c) eqn:E; [exact IH|]. cbn. exact E.
Qed.

Lemma starts_space_rstrip (s : string) :
  starts_space s = false -> starts_space (rstrip s) = false.
Proof.
  destruct s as [|c s]; [reflexivity|]. cbn [starts_space rstrip].
  intros H. destruct (rstrip s); cbn; now rewrite ?H.
Qed.

Lemma rstrip_idem (s : string) : rstrip (rstrip s) = rstrip s.
Proof.
  induction s as [|c s IH]; [reflexivity|]. cbn [rstrip].
  destruct (rstrip s) as [|d r] eqn:E.
  - destruct (is_space c) eqn:Hc; [reflexivity|]. cbn. now rewrite Hc.
  - cbn [rstrip] in *. now rewrite IH.
Qed.

Lemma strip_idem (s : string) : strip (strip s) = strip s.
Proof.
  unfold strip.
  rewrite (lstrip_fixed (rstrip (lstrip s))).
  - apply rstrip_idem.
  - apply starts_space_rstrip, starts_space_lstrip.
Qed.

(** ** Characters that a text does not have *)

Lemma none_of_map (p : ascii -> bool) (h : ascii -> ascii) (s : string) :
  (forall c, p (h c) = true -> p c = true) ->
  none_of p s = true -> none_of p (map_str h s) = true.
Proof.
  intros H. induction s as [|c s IH]; [reflexivity|]. cbn [none_of map_str].
  intros [H1 H2]%andb_true_iff. rewrite IH by exact H2.
  destruct (p (h c)) eqn:E; [|reflexivity].
  apply H in E. now rewrite E in H1.
Qed.

Lemma none_of_forced (p : ascii -> bool) (h : ascii -> ascii) (s : string) :
  (forall c, p (h c) = false) -> none_of p (map_str h s) = true.
Proof.
  intros H. induction s as [|c s IH]; [reflexivity|]. cbn [none_of map_str].
  now rewrite H, IH.
Qed.

Lemma none_of_squeeze_go (p ok : ascii -> bool) (b : bool) (s : string) :
  p " "%char = false -> none_of p s = true -> none_of p (squeeze_go ok b s) = true.
Proof.
  intros Hsp. revert b; induction s as [|c s IH]; intros b; [reflexivity|].
  cbn [none_of squeeze_go]. intros [H1 H2]%andb_true_iff.
  destruct (ok c); [destruct b|]; cbn [none_of];
    rewrite ?Hsp, ?H1, IH; trivial.
Qed.

Lemma none_of_lstrip (p : ascii -> bool) (s : string) :
  none_of p s = true -> none_of p (lstrip s) = true.
Proof.
  induction s as [|c s IH]; [reflexivity|]. cbn [lstrip].
  destruct (is_space c); [|trivial]. intros H. apply IH.
  eapply none_of_tail; eassumption.
Qed.

Lemma none_of_rstrip (p : ascii -> bool) (s : string) :
  none_of p s = true -> none_of p (rstrip s) = true.
Proof.
  induction s as [|c s IH]; [reflexivity|]. cbn [rstrip none_of].
  intros [H1 H2]%andb_true_iff. specialize (IH H2).
  destruct (rstrip s); [destruct (is_space c)|]; cbn [none_of] in *;
    now rewrite ?H1, ?IH.
Qed.

Lemma none_of_strip (p : ascii -> bool) (s : string) :
  none_of p s = true -> none_of p (strip s) = true.
Proof. intros H. now apply none_of_rstrip, none_of_lstrip. Qed.

Lemma none_of_count (p : ascii -> bool) (c : ascii) (s : string) :
  none_of p s = true -> p c = true -> count c s = 0.
Proof.
  intros H Hc. induction s as [|a s IH]; [reflexivity|].
  cbn [none_of count] in *. apply andb_true_iff in H as [H1 H2].
  rewrite (IH H2). destruct (Ascii.eqb_spec a c) as [->|]; [|reflexivity].
  now rewrite Hc in H1.
Qed.

Lemma map_subst_fixed (ok : ascii -> bool) (b : ascii) (s : string) :
  none_of ok s = true -> map_str (subst_char ok b) s = s.
Proof.
  induction s as [|c s IH]; [reflexivity|]. cbn [none_of map_str].
  intros [H1 H2]%andb_true_iff. rewrite (IH H2). unfold subst_char.
  now destruct (ok c).
Qed.

(** ** Runs reduced to single spaces *)

Lemma squeeze_go_fixed (ok : ascii -> bool) (s : string) : forall b,
  tight_go ok b s = true -> squeeze_go ok b s = s.
Proof.
  induction s as [|c s IH]; intros b; [reflexivity|].
  cbn [tight_go squeeze_go]. destruct (ok c).
  - intros [[H1 H2]%andb_true_iff H3]%andb_true_iff.
    apply Ascii.eqb_eq in H1 as ->. destruct b; [discriminate|].
    now rewrite IH.
  - intros H. now rewrite IH.
Qed.

Lemma tight_go_squeeze_go (ok : ascii -> bool) (s : string) : forall b,
  ok " "%char = true -> tight_go ok b (squeeze_go ok b s) = true.
Proof.
  intros b Hsp. revert b. induction s as [|c s IH]; intros b; [reflexivity|].
  cbn [squeeze_go]. destruct (ok c) eqn:Hc.
  - destruct b; [apply IH|]. cbn [tight_go]. rewrite Hsp. cbn. apply IH.
  - cbn [tight_go]. rewrite Hc. apply IH.
Qed.

Lemma tight_go_weaken (ok : ascii -> bool) (s : string) (b : bool) :
  tight_go ok b s = true -> tight_go ok false s = true.
Proof.
  destruct s as [|c s]; [trivial|]. cbn [tight_go]. destruct (ok c); [|trivial].
  intros [[H1 H2]%andb_true_iff H3]%andb_true_iff. now rewrite H1, H3.
Qed.

Lemma tight_go_tail (ok : ascii -> bool) (c : ascii) (s : string) (b : bool) :
  tight_go ok b (String c s) = true -> tight_go ok false s = true.
Proof.
  cbn [tight_go]. destruct (ok c).
  - intros [_ H]%andb_true_iff. eapply tight_go_weaken; eassumption.
  - trivial.
Qed.

Lemma tight_lstrip (ok : ascii -> bool) (s : string) :
  tight ok s = true -> tight ok (lstrip s) = true.
Proof.
  unfold tight. induction s as [|c s IH]; [trivial|]. cbn [lstrip].
  destruct (is_space c); [|trivial]. intros H. apply IH.
  eapply tight_go_tail; eassumption.
Qed.

Lemma tight_go_rstrip (ok : ascii -> bool) (s : string) : forall b,
  tight_go ok b s = true -> tight_go ok b (rstrip s) = true.
Proof.
  induction s as [|c s IH]; intros b; [trivial|]. cbn [rstrip].
  intros H.
  assert (Hs : forall b', tight_go ok b' s = true ->
                          tight_go ok b' (rstrip s) = true) by exact IH.
  cbn [tight_go] in H.
  destruct (rstrip s) as [|d r] eqn:E.
  - destruct (is_space c); [reflexivity|]. cbn [tight_go].
    destruct (ok c); [|reflexivity].
    apply andb_true_iff in H as [H _]. now rewrite H.
  - cbn [tight_go]. destruct (ok c).
    + apply andb_true_iff in H as [H1 H2]. rewrite H1. now apply Hs.
    + now apply Hs.
Qed.

Lemma tight_strip (ok : ascii -> bool) (s : string) :
  tight ok s = true -> tight ok (strip s) = true.
Proof. intros H. apply tight_go_rstrip. now apply tight_lstrip. Qed.

(** ** Names made safe for a file *)

Lemma ilegales_class (c : ascii) :
  cls_match no_flags false
    [ICh "\"; ICh "/"; ICh "*"; ICh "?"; ICh ":"; ICh dquote; ICh "<"; ICh ">";
     ICh "|"; ICh cr; ICh lf] c = ilegal c.
Proof.
  pattern c. apply ascii_cases. intros n Hn.
  do 256 (destruct n as [|n]; [reflexivity|]). lia.
Qed.

Lemma space_class (c : ascii) : cls_match no_flags false [ISpace] c = is_space c.
Proof. cbn. now rewrite orb_false_r. Qed.

Lemma limpiar_nombre_eq (s : string) :
  limpiar_nombre s
  = strip (squeeze is_space (map_str (subst_char ilegal "-") s)).
Proof.
  unfold limpiar_nombre, ilegales, plus, space, set.
  change [TLit "-"] with [TLit (chr "-")].
  rewrite sub_cls_chr, sub_runs. unfold squeeze.
  rewrite (squeeze_go_ext _ is_space) by apply space_class.
  rewrite (map_str_ext _ (subst_char ilegal "-")); [reflexivity|].
  intros c. unfold subst_char. now rewrite ilegales_class.
Qed.

Lemma limpiar_nombre_none_of (p : ascii -> bool) (s : string) :
  p " "%char = false -> p "-"%char = false ->
  none_of p s = true -> none_of p (limpiar_nombre s) = true.
Proof.
  intros Hsp Hh H. rewrite limpiar_nombre_eq.
  apply none_of_strip, none_of_squeeze_go; trivial.
  apply none_of_map; trivial. intros c. unfold subst_char.
  destruct (ilegal c); [now rewrite Hh|trivial].
Qed.

Lemma limpiar_nombre_legal (s : string) : none_of ilegal (limpiar_nombre s) = true.
Proof.
  rewrite limpiar_nombre_eq.
  apply none_of_strip, none_of_squeeze_go; [reflexivity|].
  induction s as [|c s IH]; [reflexivity|]. cbn [map_str none_of].
  rewrite IH. unfold subst_char. now destruct (ilegal c) eqn:E; rewrite ?E.
Qed.

Lemma limpiar_nombre_tight (s : string) :
  tight is_space (limpiar_nombre s) = true.
Proof.
  rewrite limpiar_nombre_eq. apply tight_strip, tight_go_squeeze_go. reflexivity.
Qed.

Lemma limpiar_nombre_fixed (y : string) :
  none_of ilegal y = true -> tight is_space y = true -> strip y = y ->
  limpiar_nombre y = y.
Proof.
  intros H1 H2 H3. rewrite limpiar_nombre_eq, map_subst_fixed by exact H1.
  unfold squeeze. now rewrite squeeze_go_fixed.
Qed.

Lemma limpiar_nombre_strip (s : string) :
  strip (limpiar_nombre s) = limpiar_nombre s.
Proof. rewrite limpiar_nombre_eq. apply strip_idem. Qed.

Lemma limpiar_nombre_idem (s : string) :
  limpiar_nombre (limpiar_nombre s) = limpiar_nombre s.
Proof.
  apply limpiar_nombre_fixed.
  - apply limpiar_nombre_legal.
  - apply limpiar_nombre_tight.
  - apply limpiar_nombre_strip.
Qed.

Lemma tight_go_no_double (ok : ascii -> bool) (s : string) :
  ok " "%char = true ->
  forall b, tight_go ok b s = true -> ~ occurs "  " s.
Proof.
  intros Hsp. induction s as [|c s IH]; intros b H (pre & post & E).
  - destruct pre; discriminate.
  - destruct pre as [|x pre]; cbn in E.
    + injection E as -> ->. cbn [tight_go] in H. rewrite Hsp in H. cbn in H.
      now rewrite !andb_false_r in H.
    + injection E as -> E. apply (IH false).
      * eapply tight_go_tail; eassumption.
      * now exists pre, post.
Qed.

Lemma tight_go_only_spaces (ok : ascii -> bool) (s : string) : forall b,
  tight_go ok b s = true ->
  none_of (fun c => ok c && negb (Ascii.eqb c " ")) s = true.
Proof.
  induction s as [|c s IH]; intros b; [reflexivity|].
  cbn [tight_go none_of]. destruct (ok c).
  - intros [[H1 H2]%andb_true_iff H3]%andb_true_iff.
    rewrite H1. cbn. now apply (IH true).
  - cbn. apply IH.
Qed.

(** X10: a cleaned name contains none of the characters that are illegal
    in a file name (backslash, slash, star, question mark, colon, double
    quote, angle brackets, bar, CR, LF). *)
Theorem limpiar_nombre_sin_ilegales (s : string) (c : ascii) :
  ilegal c = true -> count c (limpiar_nombre s) = 0.
Proof. intros H. eapply none_of_count; [apply limpiar_nombre_legal|exact H]. Qed.

Lemma limpiar_nombre_sin_ilegales_ejemplo :
  ilegal "/" = true /\
  limpiar_nombre "LOPEZ/A: MARIA" = "LOPEZ-A- MARIA" /\
  count "/" (limpiar_nombre "LOPEZ/A: MARIA") = 0.
Proof.
  split; [reflexivity|]. split; [vm_compute; reflexivity|].
  exact (limpiar_nombre_sin_ilegales "LOPEZ/A: MARIA" "/" eq_refl).
Defined.

(** X11: a cleaned name has no white space at its ends, no two
    consecutive spaces and no white space other than the space. *)
Theorem limpiar_nombre_espacios (s : string) :
  strip (limpiar_nombre s) = limpiar_nombre s /\
  ~ occurs "  " (limpiar_nombre s) /\
  forall c, is_space c = true -> c <> " "%char -> count c (limpiar_nombre s) = 0.
Proof.
  split; [apply limpiar_nombre_strip|]. split.
  - apply (tight_go_no_double is_space _ eq_refl false), limpiar_nombre_tight.
  - intros c Hc Hne.
    eapply none_of_count;
      [apply (tight_go_only_spaces is_space _ false), limpiar_nombre_tight|].
    cbn beta. rewrite Hc. cbn.
    now rewrite (proj2 (Ascii.eqb_neq c " ") Hne).
Qed.

Lemma limpiar_nombre_espacios_ejemplo :
  is_space tab = true /\ tab <> " "%char /\
  count tab (limpiar_nombre ("LOPEZ " ++ chr tab ++ " MARIA ")) = 0.
Proof.
  assert (H : tab <> " "%char) by discriminate.
  split; [reflexivity|]. split; [exact H|].
  exact (proj2 (proj2 (limpiar_nombre_espacios ("LOPEZ " ++ chr tab ++ " MARIA ")))
           tab eq_refl H).
Defined.

(** X12: cleaning a name twice is cleaning it once. *)
Theorem limpiar_nombre_idempotente (s : string) :
  limpiar_nombre (limpiar_nombre s) = limpiar_nombre s.
Proof. apply limpiar_nombre_idem. Qed.

(** ** The name that formar_nombre builds *)

Lemma is_lower_upper_char (c : ascii) : is_lower (upper_char c) = false.
Proof.
  pattern c. apply ascii_cases. intros n Hn.
  do 256 (destruct n as [|n]; [reflexivity|]). lia.
Qed.

Lemma upper_fixed (s : string) : none_of is_lower s = true -> upper s = s.
Proof.
  induction s as [|c s IH]; [reflexivity|]. cbn [none_of].
  intros [H1 H2]%andb_true_iff.
  change (upper (String c s)) with (String (upper_char c) (upper s)).
  rewrite (IH H2). unfold upper_char. now destruct (is_lower c).
Qed.

(** X13: the name that formar_nombre builds is in upper case and is
    already clean: upper-casing it or cleaning it again changes nothing. *)
Theorem formar_nombre_forma (fn ln : string) :
  upper (formar_nombre fn ln) = formar_nombre fn ln /\
  limpiar_nombre (formar_nombre fn ln) = formar_nombre fn ln.
Proof.
  unfold formar_nombre. split; [|apply limpiar_nombre_idem].
  apply upper_fixed, limpiar_nombre_none_of; try reflexivity.
  apply none_of_forced, is_lower_upper_char.
Qed.

(** ** Decimal numerals *)

Lemma app_assoc_str (a b c : string) : (a ++ b) ++ c = a ++ (b ++ c).
Proof. induction a; cbn; congruence. Qed.

Lemma int_go_app (s t : string) : forall a,
  int_go a (s ++ t) = int_go (int_go a s) t.
Proof. induction s as [|c s IH]; intros a; cbn; trivial. Qed.

Lemma str_go_acc (fuel : nat) : forall n acc,
  str_go fuel n acc = str_go fuel n "" ++ acc.
Proof.
  induction fuel as [|fuel IH]; intros n acc; cbn [str_go]; [reflexivity|].
  destruct (n <? 10); [reflexivity|].
  rewrite IH, (IH _ (String _ "")), app_assoc_str. reflexivity.
Qed.

Lemma code_digit_char (n : nat) : code (digit_char n) - 48 = n mod 10.
Proof.
  unfold code, digit_char. rewrite nat_ascii_embedding.
  - lia.
  - pose proof (Nat.mod_upper_bound n 10). lia.
Qed.

Lemma int_str_go (fuel : nat) : forall n,
  n < fuel -> int (str_go fuel n "") = n.
Proof.
  unfold int. induction fuel as [|fuel IH]; intros n Hn; [lia|].
  cbn [str_go]. destruct (n <? 10) eqn:E.
  - apply Nat.ltb_lt in E. cbn [int_go]. rewrite code_digit_char.
    rewrite Nat.mod_small; lia.
  - apply Nat.ltb_ge in E. rewrite str_go_acc, int_go_app.
    rewrite IH.
    + cbn [int_go]. rewrite code_digit_char.
      pose proof (Nat.div_mod_eq n 10). lia.
    + pose proof (Nat.div_lt n 10). lia.
Qed.

Lemma int_str (n : nat) : int (str n) = n.
Proof. apply int_str_go. lia. Qed.

Lemma str_inj (n m : nat) : str n = str m -> n = m.
Proof. intros H. rewrite <- (int_str n), <- (int_str m). now rewrite H. Qed.

Lemma app_inv_head_str (p a b : string) : p ++ a = p ++ b -> a = b.
Proof. induction p as [|c p IH]; cbn; [trivial|]. intros [= H]. now apply IH. Qed.

Lemma app_inv_tail_str (t : string) : forall a b, a ++ t = b ++ t -> a = b.
Proof.
  induction a as [|c a IH]; intros [|d b] H; cbn in H.
  - reflexivity.
  - apply (f_equal length) in H. cbn in H. rewrite length_app in H. lia.
  - apply (f_equal length) in H. cbn in H. rewrite length_app in H. lia.
  - injection H as -> H. f_equal. now apply IH.
Qed.

(** ** The destination of a renamed file *)

Section DestinoLibre.

Variable sep : string.
Variable existentes : list string.
Variable base : string.

Let ruta (i : nat) : string := ruta_candidata sep base i.
Let nombre (i : nat) : string := nombre_candidato base i.

Lemma ruta_inj (i j : nat) : ruta i = ruta j -> i = j.
Proof.
  unfold ruta, ruta_candidata, path_join. intros H.
  do 2 apply app_inv_head_str in H.
  destruct i as [|i], j as [|j]; cbn [nombre_candidato] in H;
    apply app_inv_head_str in H; trivial; try discriminate H.
  change (" (" ++ str (S i) ++ ") - Medical Records.pdf")
    with (" (" ++ (str (S i) ++ ") - Medical Records.pdf")) in H.
  apply (app_inv_head_str " (") in H.
  now apply app_inv_tail_str, str_inj in H.
Qed.

Lemma path_exists_iff (p : string) : path_exists existentes p = true <-> In p existentes.
Proof. unfold path_exists. destruct (in_dec string_dec p existentes); split; easy. Qed.

Lemma destino_loop_primero (fuel : nat) : forall j,
  (exists k, j <= k <= j + fuel /\ ~ In (ruta k) existentes) ->
  exists k,
    j <= k <= j + fuel /\
    destino_loop sep existentes fuel base (S j) (ruta j) (nombre j)
    = Some (ruta k, nombre k) /\
    ~ In (ruta k) existentes /\
    forall i, j <= i < k -> In (ruta i) existentes.
Proof.
  induction fuel as [|fuel IH]; intros j (k & Hk & Hfree).
  - assert (k = j) as -> by lia. exists j. cbn [destino_loop].
    destruct (path_exists existentes (ruta j)) eqn:E.
    + apply path_exists_iff in E. contradiction.
    + repeat split; trivial; lia.
  - cbn [destino_loop]. destruct (path_exists existentes (ruta j)) eqn:E.
    + apply path_exists_iff in E.
      assert (Hk' : S j <= k <= S j + fuel).
      { destruct (Nat.eq_dec k j) as [->|]; [contradiction|lia]. }
      destruct (IH (S j) (ex_intro _ k (conj Hk' Hfree)))
        as (k' & Hk1 & Hk2 & Hk3 & Hk4).
      exists k'. repeat split; trivial; try lia.
      intros i Hi. destruct (Nat.eq_dec i j) as [->|]; [trivial|].
      apply Hk4. lia.
    + exists j. repeat split; trivial; try lia.
      intros H. apply path_exists_iff in H. congruence.
Qed.

Lemma candidato_libre :
  exists k, k <= List.length existentes /\ ~ In (ruta k) existentes.
Proof.
  set (n := List.length existentes).
  set (L := map ruta (List.seq 0 (S n))).
  destruct (Forall_Exists_dec (fun p => In p existentes)
              (fun p => in_dec string_dec p existentes) L) as [Hall|Hex].
  - assert (HL : NoDup L).
    { apply Finite.Injective_map_NoDup; [exact ruta_inj|apply seq_NoDup]. }
    assert (Hincl : incl L existentes)
      by (intros p Hp; revert p Hp; now apply Forall_forall).
    pose proof (NoDup_incl_length HL Hincl) as Hlen.
    unfold L in Hlen. rewrite List.length_map, List.length_seq in Hlen. fold n in Hlen. lia.
  - apply Exists_exists in Hex as (p & Hp & Hfree).
    apply in_map_iff in Hp as (k & <- & Hk). apply in_seq in Hk.
    exists k. split; [fold n; lia|exact Hfree].
Qed.

End DestinoLibre.

(** X14: for every set of existing paths, generar_destino ends within one
    iteration for each of them and returns the first candidate (the clean
    base without a suffix, then with the suffixes (1), (2), ...) whose path
    does not exist: the destination never overwrites an existing file. *)
Theorem generar_destino_libre (sep : string) (existentes : list string)
  (base : string) :
  exists k,
    k <= List.length existentes /\
    generar_destino sep existentes base
    = Some (ruta_candidata sep (limpiar_nombre base) k,
            nombre_candidato (limpiar_nombre base) k) /\
    ~ In (ruta_candidata sep (limpiar_nombre base) k) existentes /\
    forall i, i < k -> In (ruta_candidata sep (limpiar_nombre base) i) existentes.
Proof.
  destruct (candidato_libre sep existentes (limpiar_nombre base))
    as (k & Hk & Hfree).
  destruct (destino_loop_primero sep existentes (limpiar_nombre base)
              (List.length existentes) 0
              (ex_intro _ k (conj (conj (Nat.le_0_l k) Hk) Hfree)))
    as (k' & Hk1 & Hk2 & Hk3 & Hk4).
  exists k'. repeat split; trivial; try lia.
  intros i Hi. apply Hk4. lia.
Qed.

(** ** Splitting into words and joining them *)

Lemma rev_str_rev_str (w : string) : forall a b,
  rev_str a (rev_str b w) = rev_str (w ++ a) b.
Proof.
  induction w as [|c w IH]; intros a b; [reflexivity|].
  cbn [rev_str append]. now rewrite IH.
Qed.

Lemma rev_str_invol (w : string) : rev_str "" (rev_str "" w) = w.
Proof.
  rewrite rev_str_rev_str. cbn. clear. induction w; cbn; congruence.
Qed.

Lemma rev_str_nonempty (w acc : string) : w <> "" -> rev_str acc w <> "".
Proof.
  revert acc; induction w as [|c w IH]; intros acc H; [now elim H|].
  cbn [rev_str]. destruct w as [|d w]; [discriminate|]. now apply IH.
Qed.

Lemma none_of_rev_str (p : ascii -> bool) (s : string) : forall acc,
  none_of p acc = true -> none_of p s = true -> none_of p (rev_str acc s) = true.
Proof.
  induction s as [|c s IH]; intros acc Ha Hs; [exact Ha|].
  cbn [rev_str none_of] in *. apply andb_true_iff in Hs as [H1 H2].
  apply IH; trivial. cbn. now rewrite H1.
Qed.

Lemma split_go_word (w : string) : forall cur s,
  none_of is_space w = true -> split_go cur (w ++ s) = split_go (rev_str cur w) s.
Proof.
  induction w as [|c w IH]; intros cur s H; [reflexivity|].
  cbn [none_of] in H. apply andb_true_iff in H as [H1 H2].
  cbn [append split_go rev_str]. destruct (is_space c); [discriminate|].
  now apply IH.
Qed.

Lemma append_nil (s : string) : s ++ "" = s.
Proof. induction s; cbn; congruence. Qed.

Lemma join_cons (w w' : string) (ws : list string) :
  join " " (w :: w' :: ws) = w ++ String " " (join " " (w' :: ws)).
Proof. reflexivity. Qed.

Lemma split_join (ws : list string) :
  Forall palabra ws -> split (join " " ws) = ws.
Proof.
  unfold split. induction 1 as [|w ws [Hne Hsp] Hws IH]; [reflexivity|].
  destruct ws as [|w' ws].
  - cbn [join concat]. rewrite <- (append_nil w) at 1.
    rewrite split_go_word by exact Hsp. cbn [split_go].
    destruct (rev_str "" w) eqn:E.
    + now elim (rev_str_nonempty w "" Hne).
    + now rewrite <- E, rev_str_invol.
  - rewrite join_cons, split_go_word by exact Hsp. cbn [split_go].
    change (is_space " ") with true. cbv iota.
    destruct (rev_str "" w) eqn:E.
    + now elim (rev_str_nonempty w "" Hne).
    + rewrite <- E, rev_str_invol. now rewrite IH.
Qed.

Lemma split_go_palabras (p : ascii -> bool) (s : string) : forall cur,
  none_of is_space cur = true -> none_of p cur = true -> none_of p s = true ->
  Forall (fun w => palabra w /\ none_of p w = true) (split_go cur s).
Proof.
  assert (W : forall cur, cur <> "" -> none_of is_space cur = true ->
                          none_of p cur = true ->
                          palabra (rev_str "" cur) /\ none_of p (rev_str "" cur) = true).
  { intros cur Hne Hsp Hp. repeat split.
    - now apply rev_str_nonempty.
    - now apply none_of_rev_str.
    - now apply none_of_rev_str. }
  induction s as [|c s IH]; intros cur Hsp Hp Hs; cbn [split_go].
  - destruct cur as [|d cur]; constructor; [|constructor].
    now apply W.
  - cbn [none_of] in Hs. apply andb_true_iff in Hs as [H1 H2].
    destruct (is_space c) eqn:Hc.
    + destruct cur as [|d cur]; [now apply IH|].
      constructor; [now apply W|now apply IH].
    + apply IH; cbn [none_of]; trivial; now rewrite ?Hc, ?H1.
Qed.

Lemma split_palabras (s : string) : Forall palabra (split s).
Proof.
  pose proof (split_go_palabras (fun _ => false) s "" eq_refl eq_refl) as H.
  eapply Forall_impl; [|apply H].
  - now intros w [Hw _].
  - clear. induction s; cbn; trivial.
Qed.

(** X15: clean_text is idempotent. *)
Theorem clean_text_idempotente (txt : string) :
  Etl.clean_text (Etl.clean_text txt) = Etl.clean_text txt.
Proof.
  unfold Etl.clean_text. now rewrite split_join by apply split_palabras.
Qed.

(** ** Title case *)

Lemma lower_char_idem (c : ascii) : lower_char (lower_char c) = lower_char c.
Proof.
  pattern c. apply ascii_cases. intros n Hn.
  do 256 (destruct n as [|n]; [reflexivity|]). lia.
Qed.

Lemma lower_upper_char (c : ascii) : lower_char (upper_char c) = lower_char c.
Proof.
  pattern c. apply ascii_cases. intros n Hn.
  do 256 (destruct n as [|n]; [reflexivity|]). lia.
Qed.

Lemma is_upper_lower_char (c : ascii) : is_upper (lower_char c) = false.
Proof.
  pattern c. apply ascii_cases. intros n Hn.
  do 256 (destruct n as [|n]; [reflexivity|]). lia.
Qed.

Lemma lower_idem (s : string) : lower (lower s) = lower s.
Proof.
  unfold lower. rewrite map_str_map_str. apply map_str_ext, lower_char_idem.
Qed.

Lemma lower_capitalize (w : string) : lower (capitalize w) = lower w.
Proof.
  destruct w as [|c w]; [reflexivity|]. cbn [capitalize].
  change (lower (String (upper_char c) (lower w)))
    with (String (lower_char (upper_char c)) (lower (lower w))).
  now rewrite lower_upper_char, lower_idem.
Qed.

Lemma lower_fixed (s : string) : none_of is_upper s = true -> lower s = s.
Proof.
  induction s as [|c s IH]; [reflexivity|]. cbn [none_of].
  intros [H1 H2]%andb_true_iff.
  change (lower (String c s)) with (String (lower_char c) (lower s)).
  rewrite (IH H2). unfold lower_char. now destruct (is_upper c).
Qed.

Lemma lower_join (ws : list string) :
  lower (join " " ws) = join " " (map lower ws).
Proof.
  induction ws as [|w ws IH]; [reflexivity|].
  destruct ws as [|w' ws]; [reflexivity|].
  rewrite join_cons. cbn [map] in *. rewrite join_cons, <- IH.
  unfold lower. now rewrite map_str_app.
Qed.

Lemma palabra_capitalize (w : string) : palabra w -> palabra (capitalize w).
Proof.
  intros [Hne Hsp]. destruct w as [|c w]; [now elim Hne|].
  split; [discriminate|]. cbn [capitalize none_of] in *.
  apply andb_true_iff in Hsp as [H1 H2].
  apply andb_true_iff. split.
  - revert H1. pattern c. apply ascii_cases. intros n Hn.
    do 256 (destruct n as [|n]; [vm_compute; auto|]). lia.
  - apply none_of_map; trivial. intros a.
    pattern a. apply ascii_cases. intros n Hn.
    do 256 (destruct n as [|n]; [vm_compute; auto|]). lia.
Qed.

Lemma title_case_idem (s : string) :
  Etl.title_case (Etl.title_case s) = Etl.title_case s.
Proof.
  unfold Etl.title_case.
  pose proof (split_go_palabras is_upper (lower s) "" eq_refl eq_refl) as H.
  assert (Hl : none_of is_upper (lower s) = true)
    by (apply none_of_forced, is_upper_lower_char).
  specialize (H Hl). fold (split (lower s)) in H.
  set (ws := split (lower s)) in *.
  rewrite lower_join, map_map.
  replace (map (fun w => lower (capitalize w)) ws) with ws.
  - rewrite split_join; [reflexivity|].
    eapply Forall_impl; [|apply H]. now intros w [Hw _].
  - clear -H. induction H as [|w ws [_ Hw] _ IH]; [reflexivity|].
    cbn [map]. now rewrite lower_capitalize, (lower_fixed w Hw), <- IH.
Qed.

(** X16: title_case is idempotent. *)
Theorem title_case_idempotente (s : string) :
  Etl.title_case (Etl.title_case s) = Etl.title_case s.
Proof. apply title_case_idem. Qed.

(** X17: the patient name, the physician and the organisation that the
    extractors return are in title case (or empty): title_case leaves them
    unchanged. *)
Theorem extractores_en_title_case (text : string) :
  Etl.title_case (Etl.extract_patient_name text) = Etl.extract_patient_name text /\
  Etl.title_case (Etl.extract_pcp text) = Etl.extract_pcp text /\
  Etl.title_case (Etl.extract_ipa text) = Etl.extract_ipa text.
Proof.
  unfold Etl.extract_patient_name, Etl.extract_pcp, Etl.extract_ipa.
  repeat split.
  - destruct (search _ Etl.memb_rgx _); [apply title_case_idem|reflexivity].
  - destruct (match search _ Etl.referring_rgx text with
              | Some m => Some m
              | None => search _ Etl.primary_rgx text
              end); [apply title_case_idem|reflexivity].
  - apply title_case_idem.
Qed.

(** ** File names of the ETL *)

Lemma replace_chr_nil (ch : ascii) (s : string) :
  replace (String ch "") "" s = filter_str (fun c => negb (Ascii.eqb ch c)) s.
Proof.
  unfold replace. induction s as [|c s IH]; [reflexivity|].
  cbn [replace_go filter_str]. rewrite prefix_chr.
  destruct (Ascii.eqb ch c); cbn; now rewrite IH.
Qed.

Lemma none_of_filter_str (p keep : ascii -> bool) (s : string) :
  none_of p s = true -> none_of p (filter_str keep s) = true.
Proof.
  induction s as [|c s IH]; [reflexivity|]. cbn [none_of filter_str].
  intros [H1 H2]%andb_true_iff.
  destruct (keep c); cbn [none_of]; rewrite ?H1; now apply IH.
Qed.

Lemma none_of_filter_out (ch : ascii) (s : string) :
  none_of (Ascii.eqb ch) (filter_str (fun c => negb (Ascii.eqb ch c)) s) = true.
Proof.
  induction s as [|c s IH]; [reflexivity|]. cbn [filter_str].
  destruct (Ascii.eqb ch c) eqn:E; cbn [negb none_of]; [exact IH|].
  now rewrite E, IH.
Qed.

Lemma quitar_none_of (p : ascii -> bool) (chars : string) : forall s,
  none_of p s = true -> none_of p (Etl.quitar chars s) = true.
Proof.
  induction chars as [|ch chars IH]; intros s H; [exact H|].
  cbn [Etl.quitar]. apply IH. rewrite replace_chr_nil.
  now apply none_of_filter_str.
Qed.

Lemma quitar_quita (chars : string) (ch : ascii) : forall s,
  In ch (list_ascii_of_string chars) ->
  none_of (Ascii.eqb ch) (Etl.quitar chars s) = true.
Proof.
  induction chars as [|c chars IH]; intros s H; [contradiction|].
  cbn [Etl.quitar list_ascii_of_string] in *. destruct H as [->|H].
  - apply quitar_none_of. rewrite replace_chr_nil. apply none_of_filter_out.
  - now apply IH.
Qed.

(** X18: a cleaned file name has at most 150 characters and none of the
    characters of FORBIDDEN. *)
Theorem clean_filename_seguro (s : string) :
  length (Etl.clean_filename s) <= 150 /\
  forall c, In c (list_ascii_of_string Etl.FORBIDDEN) ->
            count c (Etl.clean_filename s) = 0.
Proof.
  unfold Etl.clean_filename. split.
  - rewrite length_take. lia.
  - intros c Hc. apply (none_of_count (Ascii.eqb c)); [|apply Ascii.eqb_refl].
    apply none_of_take, none_of_strip. now apply quitar_quita.
Qed.

Lemma clean_filename_seguro_ejemplo :
  In ":"%char (list_ascii_of_string Etl.FORBIDDEN) /\
  Etl.clean_filename "Ana:  Garcia?" = "Ana Garcia" /\
  count ":" (Etl.clean_filename "Ana:  Garcia?") = 0.
Proof.
  assert (H : In ":"%char (list_ascii_of_string Etl.FORBIDDEN)) by (cbn; tauto).
  split; [exact H|]. split; [vm_compute; reflexivity|].
  exact (proj2 (clean_filename_seguro "Ana:  Garcia?") ":"%char H).
Defined.

(** ** Patterns that match finitely many words *)

Lemma upper_app (a b : string) : upper (a ++ b) = upper a ++ upper b.
Proof. apply map_str_app. Qed.

Lemma lower_eq_upper_eq (a c : ascii) :
  lower_char a = lower_char c -> upper_char a = upper_char c.
Proof.
  intros H. rewrite <- (upper_lower_char a), <- (upper_lower_char c). now rewrite H.
Qed.

Section Palabras.

Variable f : flags.
Hypothesis f_ignorecase : ignorecase f = true.

Lemma mt_words (r : regex) : forall ws,
  words r = Some ws ->
  forall cur cs k res,
    mt f r cur cs k = Some res ->
    exists w u cur' cs',
      In w ws /\ rest cur = u ++ rest cur' /\ upper u = upper w /\
      k cur' cs' = Some res.
Proof.
  induction r as [| a | | neg items | | | | r1 IH1 r2 IH2 | r1 IH1 r2 IH2
                 | greedy lo hi r1 IH1 | i r1 IH1];
    intros ws Hws cur cs k res Hm; cbn [words] in Hws; try discriminate.
  - injection Hws as <-. exists "", "", cur, cs. cbn in *. auto.
  - injection Hws as <-. cbn [mt] in Hm.
    destruct cur as [p pv [|c s]]; cbn [step rest] in Hm; [discriminate|].
    destruct (lit_match f a c) eqn:E; [|discriminate].
    exists (String a ""), (String c ""), (Cursor (S p) (Some c) s), cs.
    repeat split; [now left| |exact Hm].
    unfold lit_match in E. rewrite f_ignorecase in E.
    apply Ascii.eqb_eq in E. cbn. f_equal. symmetry. now apply lower_eq_upper_eq.
  - destruct (words r1) as [ws1|]; [|discriminate].
    destruct (words r2) as [ws2|]; [|discriminate]. injection Hws as <-.
    cbn [mt] in Hm.
    destruct (IH1 _ eq_refl _ _ _ _ Hm) as (w1 & u1 & cur1 & cs1 & H1 & E1 & U1 & Hk1).
    destruct (IH2 _ eq_refl _ _ _ _ Hk1) as (w2 & u2 & cur2 & cs2 & H2 & E2 & U2 & Hk2).
    exists (w1 ++ w2), (u1 ++ u2), cur2, cs2. repeat split; trivial.
    + apply in_flat_map. exists w1. split; [exact H1|]. now apply in_map.
    + rewrite E1, E2. symmetry. apply app_assoc_str.
    + now rewrite !upper_app, U1, U2.
  - destruct (words r1) as [ws1|]; [|discriminate].
    destruct (words r2) as [ws2|]; [|discriminate]. injection Hws as <-.
    cbn [mt] in Hm. destruct (mt f r1 cur cs k) as [res1|] eqn:E; cbn in Hm.
    + injection Hm as <-.
      destruct (IH1 _ eq_refl _ _ _ _ E) as (w & u & cur' & cs' & H & R).
      exists w, u, cur', cs'. split; [apply in_or_app; now left|exact R].
    + destruct (IH2 _ eq_refl _ _ _ _ Hm) as (w & u & cur' & cs' & H & R).
      exists w, u, cur', cs'. split; [apply in_or_app; now right|exact R].
  - destruct lo as [|lo]; [|discriminate].
    destruct hi as [[|[|hi]]|]; try discriminate.
    destruct (words r1) as [ws1|]; [|discriminate]. injection Hws as <-.
    cbn [mt] in Hm. rewrite rep_loop_eq in Hm. cbv zeta in Hm.
    change (0 <=? 0) with true in Hm. cbv iota in Hm.
    assert (Stop : k cur cs = Some res ->
                   exists w u cur' cs',
                     In w ("" :: ws1) /\ rest cur = u ++ rest cur' /\
                     upper u = upper w /\ k cur' cs' = Some res).
    { intros Hk. exists "", "", cur, cs. cbn. auto. }
    assert (More : forall fuel,
              mt f r1 cur cs
                (fun cur' cs' =>
                   if pos cur <? pos cur'
                   then rep_loop (mt f r1) greedy 0 (Some 1) k fuel 1 cur' cs'
                   else None) = Some res ->
              exists w u cur' cs',
                In w ("" :: ws1) /\ rest cur = u ++ rest cur' /\
                upper u = upper w /\ k cur' cs' = Some res).
    { intros fuel Hb.
      destruct (IH1 _ eq_refl _ _ _ _ Hb) as (w & u & cur' & cs' & H & E & U & Hk).
      exists w, u, cur', cs'. repeat split; trivial; [now right|].
      destruct (pos cur <? pos cur'); [|discriminate].
      rewrite rep_loop_eq in Hk. cbv zeta in Hk.
      change (0 <=? 1) with true in Hk. change (within (Some 1) 1) with false in Hk.
      destruct greedy, fuel; cbn in Hk; destruct (k cur' cs'); cbn in Hk;
        congruence. }
    change (within (Some 1) 0) with true in Hm.
    destruct (length (rest cur)) as [|fuel]; destruct greedy; cbn [or_else] in Hm.
    + now apply Stop.
    + destruct (k cur cs) eqn:Ek; cbn in Hm; [|discriminate].
      apply Stop. congruence.
    + destruct (mt f r1 cur cs _) eqn:Eb; cbn in Hm.
      * injection Hm as <-. eapply More. exact Eb.
      * now apply Stop.
    + destruct (k cur cs) eqn:Ek; cbn in Hm.
      * apply Stop. congruence.
      * eapply More. exact Hm.
  - cbn [mt] in Hm.
    destruct (IH1 _ Hws _ _ _ _ Hm) as (w & u & cur' & cs' & H & E & U & Hk).
    now exists w, u, cur', (((i, (pos cur, take (pos cur' - pos cur) (rest cur))) :: cs')).
Qed.

Lemma blocked_words (Q : string -> Prop) (r : regex) (ws : list string) :
  words r = Some ws ->
  (forall s w, Q s -> In w ws -> ~ occurs_ci w s) ->
  blocked f Q r.
Proof.
  intros Hws HQ cur cs k Hcur.
  destruct (mt f r cur cs k) as [res|] eqn:E; [|reflexivity].
  destruct (mt_words r ws Hws _ _ _ _ E) as (w & u & cur' & cs' & H & R & U & _).
  elim (HQ _ w Hcur H). exists "", (upper (rest cur')).
  rewrite R, upper_app, U. reflexivity.
Qed.

End Palabras.

Lemma occurs_trans (a b s : string) : occurs a b -> occurs b s -> occurs a s.
Proof.
  intros (p1 & q1 & ->) (p2 & q2 & ->).
  exists (p2 ++ p1), (q1 ++ q2). now rewrite !app_assoc_str.
Qed.

Lemma occurs_tail (w : string) (c : ascii) (s : string) :
  occurs w s -> occurs w (String c s).
Proof. intros (p & q & ->). now exists (String c p), q. Qed.

Lemma occurs_ci_tail (w : string) (c : ascii) (s : string) :
  ~ occurs_ci w (String c s) -> ~ occurs_ci w s.
Proof. intros H H'. apply H. now apply occurs_tail. Qed.

Ltac bloquear_hip Qt :=
  first [ assumption
        | apply blocked_grp; bloquear_hip Qt
        | apply blocked_rep; [lia | bloquear_hip Qt]
        | apply blocked_alt; [bloquear_hip Qt | bloquear_hip Qt]
        | apply blocked_seq_l; bloquear_hip Qt
        | apply blocked_seq_r; [exact Qt | bloquear_hip Qt] ].

Lemma occurs_upper (a s : string) : occurs a s -> occurs (upper a) (upper s).
Proof.
  intros (p & q & ->). exists (upper p), (upper q). now rewrite !upper_app.
Qed.

Lemma occurs_ci_sub (a w s : string) :
  contains (upper a) (upper w) = true -> ~ occurs_ci a s -> ~ occurs_ci w s.
Proof.
  intros H Ha Hw. apply Ha. unfold occurs_ci in *.
  eapply occurs_trans; [|exact Hw]. now apply contains_iff.
Qed.

(** ** Texts without a birth-date label *)

Section SinEtiqueta.

Variable dtparse : string -> option datetime.
Variable texto : string.

Hypothesis sin_dob : ~ occurs_ci "DOB" texto.
Hypothesis sin_d_ob : ~ occurs_ci "D.OB" texto.
Hypothesis sin_do_b : ~ occurs_ci "DO.B" texto.
Hypothesis sin_d_o_b : ~ occurs_ci "D.O.B" texto.
Hypothesis sin_date_of_birth : ~ occurs_ci "Date of Birth" texto.

Let Q (s : string) : Prop :=
  ~ occurs_ci "DOB" s /\ ~ occurs_ci "D.OB" s /\ ~ occurs_ci "DO.B" s /\
  ~ occurs_ci "D.O.B" s /\ ~ occurs_ci "Date of Birth" s.

Lemma Q_texto : Q texto.
Proof. repeat split; assumption. Qed.

Lemma Q_tail (c : ascii) (s : string) : Q (String c s) -> Q s.
Proof.
  intros (H1 & H2 & H3 & H4 & H5).
  repeat split; eapply occurs_ci_tail; eassumption.
Qed.

Lemma Q_etiquetas (f : flags) :
  ignorecase f = true ->
  blocked f Q (lit "DOB") /\ blocked f Q (lit "Date of Birth") /\
  blocked f Q etiqueta_dob.
Proof.
  intros Hf. repeat split.
  - apply (blocked_words f Hf Q (lit "DOB") ["DOB"] eq_refl).
    intros s w (H1 & _) [<-|[]]. exact H1.
  - apply (blocked_words f Hf Q (lit "Date of Birth") ["Date of Birth"] eq_refl).
    intros s w (_ & _ & _ & _ & H5) [<-|[]]. exact H5.
  - eapply (blocked_words f Hf Q); [reflexivity|].
    intros s w (H1 & H2 & H3 & H4 & _) Hin.
    cbn in Hin. decompose [or] Hin; subst; try contradiction;
      first [ exact H1
            | apply (occurs_ci_sub "DOB"); [vm_compute; reflexivity|exact H1]
            | apply (occurs_ci_sub "D.OB"); [vm_compute; reflexivity|exact H2]
            | apply (occurs_ci_sub "DO.B"); [vm_compute; reflexivity|exact H3]
            | apply (occurs_ci_sub "D.O.B"); [vm_compute; reflexivity|exact H4] ].
Qed.

Lemma sin_etiqueta_sin_resultado :
  extraer_nombre_dob dtparse texto = (None, None).
Proof.
  pose proof Q_texto as Hc. pose proof Q_tail as Qt.
  destruct (Q_etiquetas IGNORECASE_DOTALL eq_refl) as (S1 & S2 & S3).
  destruct (Q_etiquetas IGNORECASE eq_refl) as (I1 & I2 & I3).
  assert (A : buscar_por_linea dtparse texto = (None, None)).
  { apply linea_regexes_sin_match. unfold NAME_DOB_REGEXES.
    repeat (apply Forall_cons; [apply (blocked_finditer _ Q Qt); trivial|]);
      try apply Forall_nil;
      cbv [seq nombre_rgx valor_dob dos_puntos id_previo];
      bloquear_hip Qt. }
  assert (P : buscar_por_proximidad dtparse texto = (None, None)).
  { apply proximidad_regexes_sin_match. unfold DOB_REGEXES.
    repeat (apply Forall_cons; [apply (blocked_finditer _ Q Qt); trivial|]);
      try apply Forall_nil;
      cbv [seq dos_puntos fecha_num fecha_mes];
      bloquear_hip Qt. }
  assert (D : primera_dob dtparse DOB_REGEXES texto = None).
  { apply primera_dob_sin_match. unfold DOB_REGEXES.
    repeat (apply Forall_cons; [apply (blocked_search _ Q Qt); trivial|]);
      try apply Forall_nil;
      cbv [seq dos_puntos fecha_num fecha_mes];
      bloquear_hip Qt. }
  unfold extraer_nombre_dob. rewrite A, P. cbn [truthy_opt andb].
  unfold ultimo_recurso. now rewrite D.
Qed.

End SinEtiqueta.

(** X9: a text that has no birth-date label in any case of the letters
    (DOB, D.OB, DO.B, D.O.B, Date of Birth) is never resolved. *)
Theorem sin_etiqueta_no_resuelve
  (dtparse : string -> option datetime) (texto : string) :
  ~ occurs_ci "DOB" texto -> ~ occurs_ci "D.OB" texto ->
  ~ occurs_ci "DO.B" texto -> ~ occurs_ci "D.O.B" texto ->
  ~ occurs_ci "Date of Birth" texto ->
  extraer_nombre_dob dtparse texto = (None, None).
Proof. apply sin_etiqueta_sin_resultado. Qed.

Ltac no_ocurre := apply contains_false_iff; vm_compute; reflexivity.

Lemma sin_etiqueta_no_resuelve_ejemplo :
  extraer_nombre_dob parse "Patient Name: SMITH, JOHN  Born 03/04/1980" = (None, None).
Proof.
  apply (sin_etiqueta_no_resuelve parse "Patient Name: SMITH, JOHN  Born 03/04/1980");
    unfold occurs_ci; no_ocurre.
Defined.

(** ** Fields of the ETL without their label *)

Section EtlSinEtiqueta.

Variable text : string.

Lemma blocked_palabra (w : string) (f : flags) :
  ignorecase f = true ->
  words (lit w) = Some [w] ->
  blocked f (fun s => ~ occurs_ci w s) (lit w).
Proof.
  intros Hf Hw. apply (blocked_words f Hf _ (lit w) [w] Hw).
  now intros s w' H [<-|[]].
Qed.

Lemma extract_dob_sin_birth :
  ~ occurs_ci "BIRTH" text -> Etl.extract_dob text = "".
Proof.
  intros H. unfold Etl.extract_dob.
  rewrite (blocked_search IGNORECASE (fun s => ~ occurs_ci "BIRTH" s)
             (occurs_ci_tail "BIRTH")); trivial.
  pose proof (blocked_palabra "BIRTH" IGNORECASE eq_refl eq_refl).
  cbv [Etl.dob_rgx seq]. bloquear_hip (occurs_ci_tail "BIRTH").
Qed.

Lemma sin_palabra_sin_frase (w a : string) :
  contains (upper w) (upper a) = true -> ~ occurs_ci w text -> ~ occurs a text.
Proof.
  intros Ha H Hoc. apply H. unfold occurs_ci.
  eapply occurs_trans; [apply contains_iff; exact Ha|]. now apply occurs_upper.
Qed.

Lemma extract_patient_name_sin_name :
  ~ occurs_ci "NAME" text -> Etl.extract_patient_name text = "".
Proof.
  intros H. unfold Etl.extract_patient_name.
  rewrite (replace_absent "MEMS NAME") by
    (try discriminate; now apply (sin_palabra_sin_frase "NAME")).
  rewrite (replace_absent "MEMN NAME") by
    (try discriminate; now apply (sin_palabra_sin_frase "NAME")).
  rewrite (blocked_search IGNORECASE (fun s => ~ occurs_ci "NAME" s)
             (occurs_ci_tail "NAME")); trivial.
  pose proof (blocked_palabra "NAME" IGNORECASE eq_refl eq_refl).
  cbv [Etl.memb_rgx seq]. bloquear_hip (occurs_ci_tail "NAME").
Qed.

Lemma extract_pcp_sin_physician :
  ~ occurs_ci "PHYSICIAN" text -> Etl.extract_pcp text = "".
Proof.
  intros H. unfold Etl.extract_pcp.
  pose proof (blocked_palabra "PHYSICIAN" IGNORECASE_DOTALL eq_refl eq_refl).
  rewrite !(blocked_search IGNORECASE_DOTALL (fun s => ~ occurs_ci "PHYSICIAN" s)
              (occurs_ci_tail "PHYSICIAN")); trivial.
  - cbv [Etl.primary_rgx seq]. bloquear_hip (occurs_ci_tail "PHYSICIAN").
  - cbv [Etl.referring_rgx seq]. bloquear_hip (occurs_ci_tail "PHYSICIAN").
Qed.

Lemma extract_ipa_sin_ipa :
  ~ occurs_ci "IPA" text -> ~ occurs_ci "MEDICAL" text -> Etl.extract_ipa text = "".
Proof.
  intros H1 H2. unfold Etl.extract_ipa.
  pose proof (blocked_palabra "IPA" IGNORECASE_MULTILINE eq_refl eq_refl).
  pose proof (blocked_palabra "MEDICAL" IGNORECASE eq_refl eq_refl).
  rewrite (blocked_search IGNORECASE_MULTILINE (fun s => ~ occurs_ci "IPA" s)
             (occurs_ci_tail "IPA")); trivial.
  - rewrite (blocked_search IGNORECASE (fun s => ~ occurs_ci "MEDICAL" s)
               (occurs_ci_tail "MEDICAL")); trivial.
    cbv [Etl.grupo_rgx seq]. bloquear_hip (occurs_ci_tail "MEDICAL").
  - cbv [Etl.ipa_rgx seq]. bloquear_hip (occurs_ci_tail "IPA").
Qed.

End EtlSinEtiqueta.

(** X19: without the word BIRTH, in any case of the letters, in the text,
    the date-of-birth extractor returns the empty string. *)
Theorem extract_dob_sin_etiqueta (text : string) :
  ~ occurs_ci "BIRTH" text -> Etl.extract_dob text = "".
Proof. apply extract_dob_sin_birth. Qed.

Lemma extract_dob_sin_etiqueta_ejemplo :
  ~ occurs_ci "BIRTH" "MEMB NAME: GARCIA, ANA  DOB: 05/06/1975" /\
  Etl.extract_dob "MEMB NAME: GARCIA, ANA  DOB: 05/06/1975" = "".
Proof.
  assert (H : ~ occurs_ci "BIRTH" "MEMB NAME: GARCIA, ANA  DOB: 05/06/1975")
    by (unfold occurs_ci; no_ocurre).
  split; [exact H|].
  exact (extract_dob_sin_etiqueta "MEMB NAME: GARCIA, ANA  DOB: 05/06/1975" H).
Defined.

(** X20: without the word NAME, in any case of the letters, in the text,
    the patient name extractor returns the empty string. *)
Theorem extract_patient_name_sin_etiqueta (text : string) :
  ~ occurs_ci "NAME" text -> Etl.extract_patient_name text = "".
Proof. apply extract_patient_name_sin_name. Qed.

Lemma extract_patient_name_sin_etiqueta_ejemplo :
  ~ occurs_ci "NAME" "Patient: GARCIA, ANA" /\
  Etl.extract_patient_name "Patient: GARCIA, ANA" = "".
Proof.
  assert (H : ~ occurs_ci "NAME" "Patient: GARCIA, ANA")
    by (unfold occurs_ci; no_ocurre).
  split; [exact H|].
  exact (extract_patient_name_sin_etiqueta "Patient: GARCIA, ANA" H).
Defined.

(** X21: without the word PHYSICIAN, in any case of the letters, in the
    text, the physician extractor returns the empty string. *)
Theorem extract_pcp_sin_etiqueta (text : string) :
  ~ occurs_ci "PHYSICIAN" text -> Etl.extract_pcp text = "".
Proof. apply extract_pcp_sin_physician. Qed.

Lemma extract_pcp_sin_etiqueta_ejemplo :
  ~ occurs_ci "PHYSICIAN" "PCP NAME: DR. JOHN SMITH" /\
  Etl.extract_pcp "PCP NAME: DR. JOHN SMITH" = "".
Proof.
  assert (H : ~ occurs_ci "PHYSICIAN" "PCP NAME: DR. JOHN SMITH")
    by (unfold occurs_ci; no_ocurre).
  split; [exact H|].
  exact (extract_pcp_sin_etiqueta "PCP NAME: DR. JOHN SMITH" H).
Defined.

(** X22: without the words IPA and MEDICAL, in any case of the letters,
    in the text, the organisation extractor returns the empty string. *)
Theorem extract_ipa_sin_etiqueta (text : string) :
  ~ occurs_ci "IPA" text -> ~ occurs_ci "MEDICAL" text -> Etl.extract_ipa text = "".
Proof. apply extract_ipa_sin_ipa. Qed.

Lemma extract_ipa_sin_etiqueta_ejemplo :
  ~ occurs_ci "IPA" "Health Net of California" /\
  ~ occurs_ci "MEDICAL" "Health Net of California" /\
  Etl.extract_ipa "Health Net of California" = "".
Proof.
  assert (H1 : ~ occurs_ci "IPA" "Health Net of California")
    by (unfold occurs_ci; no_ocurre).
  assert (H2 : ~ occurs_ci "MEDICAL" "Health Net of California")
    by (unfold occurs_ci; no_ocurre).
  split; [exact H1|]. split; [exact H2|].
  exact (extract_ipa_sin_etiqueta "Health Net of California" H1 H2).
Defined.
